(** * Scattered-light correction for UVOT counts images

    A shallow embedding of [uvot_scattered_light.py]: the transform
    [calc_counts_image], the interactive fit loop [run_manual], the
    per-snapshot orchestrator [sl_manual] and the batch step [sl_apply].

    NumPy arrays are Python objects that are passed by reference and updated
    in place, so arrays live in a store indexed by object identity and every
    function threads that store.  Exceptions are values of an error monad.
    Pixel arithmetic is floating point in the program; it is taken here as an
    interface of scalar operations, so that everything proved holds for every
    implementation of that interface. *)

From Stdlib Require Import Ascii String QArith Qround.
From stdpp Require Import gmap strings list fin_maps.

Set Default Proof Using "Type*".
Set Warnings "-clear-no-such-hyp".

(** ** Exceptions and results *)

Inductive exn : Type :=
  | ValueError
  | IndexError
  | TypeError
  | EOFError
  | FileNotFoundError
  | DanglingRef.   (* not reachable from Python: a reference to no object *)

Inductive result (A : Type) : Type :=
  | Ok (a : A)
  | Raise (e : exn).
Arguments Ok {A} a.
Arguments Raise {A} e.

Global Instance result_bind : MBind result := λ A B k r,
  match r with
  | Ok a => k a
  | Raise e => Raise e
  end.

Definition or_raise {A : Type} (e : exn) (o : option A) : result A :=
  match o with
  | Some a => Ok a
  | None => Raise e
  end.

(** ** Scalars

    The operations NumPy and Python apply to pixel values and parameters.
    [eqb] is [==] (on floats it is not Leibniz equality), [gtb] is [>],
    [leb] is [<=], [pow e x] is [e ** x], [minimum] is the binary operation
    [np.min] reduces with, [add_reduce] is the sum [np.mean] divides by the
    element count, and [py_float] is the conversion [float(token)], which is
    [None] where Python raises [ValueError].  [lit_1_2] and [lit_0_4] are the
    literals [1.2] and [0.4].

    A scalar carries its dtype, as a NumPy scalar does: [dtype_of x] tells
    whether [x] is of an integer or of a floating-point type.  An array or a
    table column has the dtype of its elements, and a value assigned into it
    is converted to that dtype: [astype d x] is the conversion (to an
    integer dtype it drops the fraction).  [ScalarLaws] lists the few laws of
    the arithmetic that some of the results below rely on; [Promotion] adds
    what NumPy's type promotion gives for a floating-point operand. *)

Inductive dtype : Type :=
  | Integer
  | Floating.

Class Scalar (F : Type) : Type := {
  zero : F;
  eqb : F → F → bool;
  gtb : F → F → bool;
  leb : F → F → bool;
  add : F → F → F;
  sub : F → F → F;
  mul : F → F → F;
  div : F → F → F;
  pow : F → F → F;
  minimum : F → F → F;
  add_reduce : list F → F;
  of_count : nat → F;
  lit_1_2 : F;
  lit_0_4 : F;
  py_float : string → option F;
  dtype_of : F → dtype;
  astype : dtype → F → F
}.

Class ScalarLaws (F : Type) `{!Scalar F} : Prop := {
  add_comm : ∀ x y : F, add x y = add y x;
  mul_comm : ∀ x y : F, mul x y = mul y x;
  eqb_sym : ∀ x y : F, eqb x y = eqb y x;
  leb_not_gtb : ∀ x y : F, leb x y = true → gtb x y = false;
  astype_same : ∀ x : F, astype (dtype_of x) x = x
}.

Class Promotion (F : Type) `{!Scalar F} : Prop := {
  sub_float : ∀ x y : F, dtype_of x = Floating → dtype_of (sub x y) = Floating;
  pow_float : ∀ e y : F, dtype_of y = Floating → dtype_of (pow e y) = Floating;
  lit_1_2_float : dtype_of (lit_1_2 : F) = Floating;
  lit_0_4_float : dtype_of (lit_0_4 : F) = Floating;
  py_float_float : ∀ s (x : F), py_float s = Some x → dtype_of x = Floating
}.

(** What an element that holds [old] holds after [new] is assigned to it. *)
Definition assign {F : Type} `{!Scalar F} (old new : F) : F :=
  astype (dtype_of old) new.

(** ** Index selection and assignment on flat data *)

(** [np.where(mask)]: the positions that hold [True], in increasing order. *)
Fixpoint where_from (k : nat) (mask : list bool) : list nat :=
  match mask with
  | [] => []
  | b :: mask' =>
      if b then k :: where_from (S k) mask' else where_from (S k) mask'
  end.

Definition np_where (mask : list bool) : list nat := where_from 0 mask.

(** [a[idx]] with an index array: a fresh array of the selected values. *)
Fixpoint getitem {A : Type} (l : list A) (idx : list nat) : result (list A) :=
  match idx with
  | [] => Ok []
  | i :: idx' =>
      x ← or_raise IndexError (l !! i);
      xs ← getitem l idx';
      Ok (x :: xs)
  end.

(** [a[idx] = vals]: in-place assignment, one value per index. *)
Fixpoint setitem {A : Type} (l : list A) (idx : list nat) (vals : list A)
  : result (list A) :=
  match idx, vals with
  | [], [] => Ok l
  | i :: idx', v :: vals' =>
      if decide (i < length l) then setitem (<[i := v]> l) idx' vals'
      else Raise IndexError
  | _, _ => Raise ValueError
  end.

(** The same two operations, told by mask instead of by index. *)
Fixpoint sel {A : Type} (mask : list bool) (l : list A) : list A :=
  match mask, l with
  | b :: mask', x :: l' => if b then x :: sel mask' l' else sel mask' l'
  | _, _ => []
  end.

Fixpoint on_mask {A : Type} (g : A → A) (mask : list bool) (l : list A)
  : list A :=
  match mask, l with
  | b :: mask', x :: l' => (if b then g x else x) :: on_mask g mask' l'
  | _, _ => l
  end.

Section Transform.
Context {F : Type} `{!Scalar F}.

(** ** Arrays and the object store *)

(** A two-dimensional array: its shape and its elements in row-major
    order. *)
Record ndarray : Type := NdArray {
  shape : nat * nat;
  data : list F
}.

Definition with_data (a : ndarray) (d : list F) : ndarray :=
  {| shape := shape a; data := d |}.

Definition read (st : gmap nat ndarray) (l : nat) : result ndarray :=
  or_raise DanglingRef (st !! l).

Definition alloc (st : gmap nat ndarray) (a : ndarray)
  : gmap nat ndarray * nat :=
  let l := fresh (dom st) in (<[l := a]> st, l).

(** ** Reductions *)

Definition np_min (l : list F) : result F :=
  match l with
  | [] => Raise ValueError
  | x :: l' => Ok (foldl minimum x l')
  end.

Definition np_mean (l : list F) : F :=
  div (add_reduce l) (of_count (length l)).

(** ** Elementwise division with broadcasting *)

Definition bdim (d1 d2 : nat) : option nat :=
  if decide (d1 = d2) then Some d1
  else if decide (d1 = 1) then Some d2
  else if decide (d2 = 1) then Some d1
  else None.

Definition bget (a : ndarray) (i j : nat) : option F :=
  let '(r, c) := shape a in
  data a !! ((if decide (r = 1) then 0 else i) * c
             + (if decide (c = 1) then 0 else j)).

Fixpoint bcells (a b : ndarray) (ijs : list (nat * nat)) : option (list F) :=
  match ijs with
  | [] => Some []
  | (i, j) :: ijs' =>
      match bget a i j, bget b i j, bcells a b ijs' with
      | Some x, Some y, Some zs => Some (div x y :: zs)
      | _, _, _ => None
      end
  end.

Definition np_divide (a b : ndarray) : result ndarray :=
  if decide (shape a = shape b) then
    Ok {| shape := shape a; data := zip_with div (data a) (data b) |}
  else
    match bdim (shape a).1 (shape b).1, bdim (shape a).2 (shape b).2 with
    | Some r, Some c =>
        d ← or_raise ValueError
              (bcells a b (flat_map (λ i, map (pair i) (seq 0 c)) (seq 0 r)));
        Ok {| shape := (r, c); data := d |}
    | _, _ => Raise ValueError
    end.

(** ** The transform: [calc_counts_image]

    [sk] and [sl] name the memory of the arrays bound to [sk_array] and
    [sl_array]: two arrays that share their memory (one object passed twice,
    or an array and a view of the whole of it) are the same name.  The first
    two statements assign into the caller's [sl_array], and what they store
    is converted to its dtype; the division by the mean rebinds the local
    name to a new floating-point array [l1], which the three augmented
    assignments then update; [new_image] is a new array too. *)

Definition calc_counts_image (st : gmap nat ndarray) (sk sl : nat)
    (exp_param flat_param : F) : result (gmap nat ndarray * nat) :=
  s0 ← read st sl;
  let fov := np_where (map (λ x, gtb x zero) (data s0)) in
  (* sl_array[fov] -= np.min(sl_array[fov]) *)
  v0 ← getitem (data s0) fov;
  mn ← np_min v0;
  d1 ← setitem (data s0) fov (map (λ x, assign x (sub x mn)) v0);
  let st1 := <[sl := with_data s0 d1]> st in
  (* sl_array[fov] = exp_param**sl_array[fov] *)
  s1 ← read st1 sl;
  v1 ← getitem (data s1) fov;
  d2 ← setitem (data s1) fov (map (λ x, assign x (pow exp_param x)) v1);
  let st2 := <[sl := with_data s1 d2]> st1 in
  (* sl_array = sl_array / np.mean(sl_array[fov]) *)
  s2 ← read st2 sl;
  v2 ← getitem (data s2) fov;
  let mean := np_mean v2 in
  let '(st3, l1) := alloc st2 (with_data s2 (map (λ x, div x mean) (data s2))) in
  (* m = np.mean(sl_array[fov]) *)
  s3 ← read st3 l1;
  v3 ← getitem (data s3) fov;
  let m := np_mean v3 in
  (* sl_array -= m ; sl_array *= flat_param ; sl_array += m *)
  let st4 := <[l1 := with_data s3 (map (λ x, sub x m) (data s3))]> st3 in
  s4 ← read st4 l1;
  let st5 := <[l1 := with_data s4 (map (λ x, mul x flat_param) (data s4))]> st4 in
  s5 ← read st5 l1;
  let st6 := <[l1 := with_data s5 (map (λ x, add x m) (data s5))]> st5 in
  (* new_image = sk_array / sl_array *)
  c ← read st6 sk;
  s6 ← read st6 l1;
  r ← np_divide c s6;
  Ok (alloc st6 r).

(** ** The transform, as the specification words it

    The field of view is the set of positions where the template is
    positive, fixed once; every later step is a map over the template. *)

Definition fov_mask (s : list F) : list bool := map (λ x, gtb x zero) s.

(** [S[FOV]] and its minimum ([zero] stands in when the field of view is
    empty, where the minimum does not exist). *)
Definition fov_values (s : list F) : list F := sel (fov_mask s) s.

Definition fov_min (s : list F) : F :=
  foldl minimum (hd zero (fov_values s)) (tl (fov_values s)).


(** The template as the code computes it: the first two steps stored in
    the dtype of the caller's array, the last one in the order of the three
    augmented assignments. *)
Definition code_template (s : list F) (e f : F) : list F :=
  let fov := fov_mask s in
  let s1 := on_mask (λ x, assign x (sub x (fov_min s))) fov s in
  let s2 := on_mask (λ x, assign x (pow e x)) fov s1 in
  let s3 := map (λ x, div x (np_mean (sel fov s2))) s2 in
  let m := np_mean (sel fov s3) in
  map (λ x, add (mul (sub x m) f) m) s3.


(** What the call leaves in the caller's template array. *)
Definition spec_consumed (s : list F) (e : F) : list F :=
  map (λ x, if gtb x zero
            then let y := assign x (sub x (fov_min s)) in assign y (pow e y)
            else x) s.

(** An array of a floating-point dtype. *)
Definition floating (s : list F) : Prop :=
  Forall (λ x, dtype_of x = Floating) s.


Definition left_at (k : nat) (r : result (gmap nat ndarray * nat))
  : result (option ndarray) :=
  '(st', _) ← r; Ok (st' !! k).

(** The template has a field of view: some element is positive. *)
Definition has_fov (s : list F) : Prop := ∃ x, x ∈ s ∧ gtb x zero = true.

(** The value [calc_counts_image] returns, from the contents of its two
    arguments; [alias] tells whether they are one and the same object. *)
Definition transform_value (alias : bool) (c s : ndarray) (e f : F)
  : result ndarray :=
  if decide (fov_values (data s) = []) then Raise ValueError
  else np_divide (if alias then with_data s (spec_consumed (data s) e) else c)
                 (with_data s (code_template (data s) e f)).

End Transform.

Arguments ndarray F : clear implicits.

(** ** Python string operations *)

(** [s.replace(old, new)]: every occurrence, leftmost first and without
    overlap; [skip] counts the characters of a match still to be dropped. *)
Fixpoint replace_from (old new : string) (skip : nat) (s : string) : string :=
  match s with
  | EmptyString => EmptyString
  | String c s' =>
      match skip with
      | S k => replace_from old new k s'
      | O =>
          if String.prefix old s
          then new +:+ replace_from old new (String.length old - 1) s'
          else String c (replace_from old new 0 s')
      end
  end.

Fixpoint interleave (new s : string) : string :=
  match s with
  | EmptyString => new
  | String c s' => new +:+ String c (interleave new s')
  end.

Definition py_replace (old new s : string) : string :=
  match old with
  | EmptyString => interleave new s
  | _ => replace_from old new 0 s
  end.

(** [s.split(sep)] for a separator of one character: never an empty list,
    and adjacent separators give empty pieces. *)
Fixpoint py_split (sep : ascii) (s : string) : list string :=
  match s with
  | EmptyString => [EmptyString]
  | String c s' =>
      if decide (c = sep) then EmptyString :: py_split sep s'
      else match py_split sep s' with
           | t :: ts => String c t :: ts
           | [] => [String c EmptyString]
           end
  end.

(** [[i for i in input_info.replace(',',' ').split(' ') if i != '']] *)
Definition input_parse (input_info : string) : list string :=
  filter (λ i, i ≠ EmptyString)
         (py_split " "%char (py_replace "," " " input_info)).


Section Fit.
Context {F : Type} `{!Scalar F}.

(** ** Image stacks, the parameter table, and the outside world *)

Record header : Type := Header {
  tstart : F;
  cards : list (string * string)
}.

Record hdu : Type := Hdu {
  hdu_data : option nat;
  hdu_header : header
}.

(** One row of the table with columns [tstart], [exp_param], [flat_param]. *)
Record row : Type := Row {
  r_tstart : F;
  r_exp_param : F;
  r_flat_param : F
}.

Inductive file : Type :=
  | TableFile (rows : list row)
  | StackFile (hdus : list (option (ndarray F) * header)).

(** What the program prints or writes, in order. *)
Inductive event : Type :=
  | EvStarting (i : nat)        (* 'starting manual corrections for extension i' *)
  | EvSkipping (i : nat)        (* 'skipping manual corrections for extension i' *)
  | EvPrompt (e f : F)          (* 'current exp_param and flat_param: ...' and input() *)
  | EvWriteTable (path : string).  (* sl_data.write(path, overwrite=True) *)

Record world : Type := World {
  w_store : gmap nat (ndarray F);
  w_fs : gmap string file;
  w_stdin : list string;
  w_log : list event
}.

Definition emit (w : world) (ev : event) : world :=
  {| w_store := w_store w; w_fs := w_fs w; w_stdin := w_stdin w;
     w_log := w_log w ++ [ev] |}.

Definition write_table (w : world) (path : string) (t : list row) : world :=
  {| w_store := w_store w; w_fs := <[path := TableFile t]> (w_fs w);
     w_stdin := w_stdin w; w_log := w_log w ++ [EvWriteTable path] |}.

(** ** The interactive fit loop: [run_manual]

    Smoothing and plotting are left out: they build new arrays and figures
    and write to no object the program reads again.  One pass of the loop
    computes the corrected image, prompts, and reads one line. *)

Inductive verdict : Type :=
  | Done                          (* break *)
  | Again (exp_param flat_param : F).   (* next pass with these values *)

(** Lines 319-324: what one line of input does to the parameters. *)
Definition parse_input (input_info : string) (exp_param flat_param : F)
  : result verdict :=
  let input_parse := input_parse input_info in
  if decide (length input_parse = 1) then Ok Done
  else if decide (length input_parse = 2) then
    t0 ← or_raise IndexError (input_parse !! 0);
    e ← or_raise ValueError (py_float t0);
    t1 ← or_raise IndexError (input_parse !! 1);
    f ← or_raise ValueError (py_float t1);
    Ok (Again e f)
  else Ok (Again exp_param flat_param).

Fixpoint run_manual_loop (stdin : list string) (st : gmap nat (ndarray F))
    (log : list event) (sk sl : nat) (exp_param flat_param : F)
  : result (F * F * (gmap nat (ndarray F) * list string * list event)) :=
  '(st', _) ← calc_counts_image st sk sl exp_param flat_param;
  let log' := log ++ [EvPrompt exp_param flat_param] in
  match stdin with
  | [] => Raise EOFError
  | input_info :: stdin' =>
      v ← parse_input input_info exp_param flat_param;
      match v with
      | Done => Ok (exp_param, flat_param, (st', stdin', log'))
      | Again e f => run_manual_loop stdin' st' log' sk sl e f
      end
  end.

Definition run_manual (w : world) (hdu_sk hdu_sl : hdu)
    (exp_param flat_param : F) : result (F * F * world) :=
  sk ← or_raise TypeError (hdu_data hdu_sk);
  sl ← or_raise TypeError (hdu_data hdu_sl);
  '(e, f, (st, stdin, log)) ←
    run_manual_loop (w_stdin w) (w_store w) (w_log w) sk sl
                    exp_param flat_param;
  Ok (e, f, {| w_store := st; w_fs := w_fs w; w_stdin := stdin;
               w_log := log |}).

(** ** The parameter table *)

(** [x in sl_data['tstart']] *)
Definition col_contains (sl_data : list row) (x : F) : bool :=
  existsb (λ r, eqb (r_tstart r) x) sl_data.

(** [np.where(x == sl_data['tstart'])[0]] *)
Definition where_tstart (sl_data : list row) (x : F) : list nat :=
  np_where (map (λ r, eqb x (r_tstart r)) sl_data).

(** [sl_data['exp_param'][ind] = v] and [sl_data['flat_param'][ind] = v]:
    the value is converted to the dtype of the column, which is that of the
    entry it replaces (the one [Table.read] inferred from the file, or the
    floating-point one of a new table). *)
Definition set_exp_param (sl_data : list row) (ind : nat) (v : F)
  : result (list row) :=
  r ← or_raise IndexError (sl_data !! ind);
  Ok (<[ind := {| r_tstart := r_tstart r;
                  r_exp_param := assign (r_exp_param r) v;
                  r_flat_param := r_flat_param r |}]> sl_data).

Definition set_flat_param (sl_data : list row) (ind : nat) (v : F)
  : result (list row) :=
  r ← or_raise IndexError (sl_data !! ind);
  Ok (<[ind := {| r_tstart := r_tstart r; r_exp_param := r_exp_param r;
                  r_flat_param := assign (r_flat_param r) v |}]> sl_data).

(** [Table.read] if the file exists, else a table with no rows. *)
Definition load_table (w : world) (sl_file : string) : result (list row) :=
  match w_fs w !! sl_file with
  | None => Ok []
  | Some (TableFile t) => Ok t
  | Some (StackFile _) => Raise ValueError
  end.

(** The specification's table operations. *)
Fixpoint lookup_record (t : list row) (x : F) : option row :=
  match t with
  | [] => None
  | r :: t' => if eqb x (r_tstart r) then Some r else lookup_record t' x
  end.

Fixpoint upsert (t : list row) (x e f : F) : list row :=
  match t with
  | [] => [ {| r_tstart := x; r_exp_param := e; r_flat_param := f |} ]
  | r :: t' =>
      if eqb x (r_tstart r)
      then {| r_tstart := r_tstart r; r_exp_param := e; r_flat_param := f |}
           :: t'
      else r :: upsert t' x e f
  end.

(** The table as the code leaves it after a fit: as [upsert], with the two
    values that go into an existing row converted to the dtype of their
    columns. *)
Fixpoint stored (t : list row) (x e f : F) : list row :=
  match t with
  | [] => [ {| r_tstart := x; r_exp_param := e; r_flat_param := f |} ]
  | r :: t' =>
      if eqb x (r_tstart r)
      then {| r_tstart := r_tstart r;
              r_exp_param := assign (r_exp_param r) e;
              r_flat_param := assign (r_flat_param r) f |} :: t'
      else r :: stored t' x e f
  end.


(** The parameters a refit of the snapshot starting at [x] is seeded with:
    those of its record if it has one, else the defaults. *)
Definition seed (t : list row) (x : F) : F * F :=
  match lookup_record t x with
  | Some r => (r_exp_param r, r_flat_param r)
  | None => (lit_1_2, lit_0_4)
  end.

(** ** The orchestrator: [sl_manual] *)

(** The body of the loop over extensions, for extension [i]. *)
Definition sl_manual_ext (sl_file : string) (fix_redo : bool)
    (hdu_sk hdu_sl : list hdu) (i : nat) (sl_data : list row) (w : world)
  : result (list row * world) :=
  h ← or_raise IndexError (hdu_sk !! i);
  let t := tstart (hdu_header h) in
  if col_contains sl_data t && fix_redo then
    let w := emit w (EvStarting i) in
    ind ← or_raise IndexError (where_tstart sl_data t !! 0);
    hl ← or_raise IndexError (hdu_sl !! i);
    r ← or_raise IndexError (sl_data !! ind);
    '(exp_param, flat_param, w) ←
      run_manual w h hl (r_exp_param r) (r_flat_param r);
    sl_data ← set_exp_param sl_data ind exp_param;
    sl_data ← set_flat_param sl_data ind flat_param;
    Ok (sl_data, write_table w sl_file sl_data)
  else if negb (col_contains sl_data t) then
    let w := emit w (EvStarting i) in
    hl ← or_raise IndexError (hdu_sl !! i);
    '(exp_param, flat_param, w) ← run_manual w h hl lit_1_2 lit_0_4;
    let sl_data :=
      sl_data ++ [ {| r_tstart := t; r_exp_param := exp_param;
                      r_flat_param := flat_param |} ] in
    Ok (sl_data, write_table w sl_file sl_data)
  else Ok (sl_data, emit w (EvSkipping i)).

Fixpoint sl_manual_loop (sl_file : string) (fix_redo : bool)
    (hdu_sk hdu_sl : list hdu) (exts : list nat) (sl_data : list row)
    (w : world) : result (list row * world) :=
  match exts with
  | [] => Ok (sl_data, w)
  | i :: exts' =>
      '(sl_data', w') ← sl_manual_ext sl_file fix_redo hdu_sk hdu_sl i sl_data w;
      sl_manual_loop sl_file fix_redo hdu_sk hdu_sl exts' sl_data' w'
  end.

(** [hdu_sk] and [hdu_sl] are the stacks [fits.open] returns for
    [sk_image] and [sl_image]; their arrays are in the store. *)
Definition sl_manual (w : world) (hdu_sk hdu_sl : list hdu)
    (sl_file : string) (fix_redo : bool) : result world :=
  sl_data ← load_table w sl_file;
  '(_, w') ← sl_manual_loop sl_file fix_redo hdu_sk hdu_sl
               (seq 1 (length hdu_sk - 1)) sl_data w;
  Ok w'.

(** ** Batch apply: [sl_apply] *)

Definition sl_apply_ext (sl_data : list row) (hdu_sk hdu_sl : list hdu)
    (i : nat) (st : gmap nat (ndarray F)) (hdu_new : list hdu)
  : result (gmap nat (ndarray F) * list hdu) :=
  h ← or_raise IndexError (hdu_sk !! i);
  sk ← or_raise TypeError (hdu_data h);
  hl ← or_raise IndexError (hdu_sl !! i);
  sl ← or_raise TypeError (hdu_data hl);
  r ← or_raise IndexError (sl_data !! (i - 1));
  '(st', new_image) ←
    calc_counts_image st sk sl (r_exp_param r) (r_flat_param r);
  Ok (st', hdu_new ++ [ {| hdu_data := Some new_image;
                           hdu_header := hdu_header h |} ]).

Fixpoint sl_apply_loop (sl_data : list row) (hdu_sk hdu_sl : list hdu)
    (exts : list nat) (st : gmap nat (ndarray F)) (hdu_new : list hdu)
  : result (gmap nat (ndarray F) * list hdu) :=
  match exts with
  | [] => Ok (st, hdu_new)
  | i :: exts' =>
      '(st', hdu_new') ← sl_apply_ext sl_data hdu_sk hdu_sl i st hdu_new;
      sl_apply_loop sl_data hdu_sk hdu_sl exts' st' hdu_new'
  end.

(** [writeto] serialises what the arrays hold when it is called. *)
Fixpoint contents (st : gmap nat (ndarray F)) (hdus : list hdu)
  : result (list (option (ndarray F) * header)) :=
  match hdus with
  | [] => Ok []
  | h :: hdus' =>
      d ← match hdu_data h with
          | None => Ok None
          | Some l => a ← read st l; Ok (Some a)
          end;
      rest ← contents st hdus';
      Ok ((d, hdu_header h) :: rest)
  end.

Definition sl_apply (w : world) (sk_image : string)
    (hdu_sk hdu_sl : list hdu) (sl_file : string) : result world :=
  sl_data ← match w_fs w !! sl_file with
            | None => Raise FileNotFoundError
            | Some (TableFile t) => Ok t
            | Some (StackFile _) => Raise ValueError
            end;
  h0 ← or_raise IndexError (hdu_sk !! 0);
  '(st, hdu_new) ←
    sl_apply_loop sl_data hdu_sk hdu_sl (seq 1 (length hdu_sk - 1))
                  (w_store w)
                  [ {| hdu_data := hdu_data h0; hdu_header := hdu_header h0 |} ];
  out ← contents st hdu_new;
  Ok {| w_store := st;
        w_fs := <[py_replace "_corr.img" "_corr_sl.img" sk_image
                  := StackFile out]> (w_fs w);
        w_stdin := w_stdin w;
        w_log := w_log w |}.






(** The table a step of the orchestrator returns. *)
Definition table_of (r : result (list row * world)) : result (list row) :=
  '(t, _) ← r; Ok t.


End Fit.

Arguments header F : clear implicits.
Arguments hdu F : clear implicits.
Arguments row F : clear implicits.
Arguments file F : clear implicits.
Arguments event F : clear implicits.
Arguments world F : clear implicits.
Arguments verdict F : clear implicits.

(** ** Notions used to state further properties of the orchestrator *)

Section Orchestrator.
Context {F : Type} `{!Scalar F}.

(** The start time in the header of extension [i]. *)
Definition start_time (hdu_sk : list (hdu F)) (i : nat) : option F :=
  (λ h, tstart (hdu_header h)) <$> hdu_sk !! i.

(** The start times of the extensions [exts], in that order. *)
Definition start_times (hdu_sk : list (hdu F)) (exts : list nat) : list F :=
  omap (start_time hdu_sk) exts.


(** No two of the values, taken in order, are equal under [==]. *)
Fixpoint pairwise_distinct (ts : list F) : Prop :=
  match ts with
  | [] => True
  | t :: ts' => Forall (λ t', eqb t t' = false) ts' ∧ pairwise_distinct ts'
  end.

(** The prompts that show the parameter pairs [shown], in order. *)
Definition prompts (shown : list (F * F)) : list (event F) :=
  map (λ p, EvPrompt p.1 p.2) shown.

(** What previews with the parameter pairs [shown], one after the other,
    leave of template contents [d]. *)
Definition previewed (d : list F) (shown : list (F * F)) : list F :=
  foldl (λ d p, spec_consumed d p.1) d shown.

End Orchestrator.

(** ** The driver: [fix_sl]

    [glob.glob] and [fits.open] are library functions: the driver is
    modelled over any two functions in their place, [glob] from the files
    there are and a pattern to the names that match, [fits_open] from a
    world and a file name to the stack of extensions and the world in which
    their arrays exist. *)

(** The lines [fix_sl] and [sl_apply] print, kept in a list of their own in
    the order printed. *)
Inductive notice : Type :=
  | NoImagesFolder (i : string)      (* 'No images found for input folder: ' + i *)
  | NoImagesFilter (filt : string)   (* 'No images found for filter: ' + filt *)
  | Observation (obs filt : string)  (* the banner naming obs and filt *)
  | NoTemplate (filt obs : string)   (* 'No scattered light image for ' + filt + ' in ' + obs *)
  | Applying.                        (* 'applying SL corrections to sky image' *)

(** [sk[-9:-7]]: a negative index counts from the end and stops at the
    start of the string. *)
Definition filter_name_of (sk : string) : string :=
  let n := String.length sk in
  String.substring (n - 9) ((n - 7) - (n - 9)) sk.

(** A dict from strings to lists of strings, in insertion order:
    [d[k] = v], which keeps the place of a key already there, and
    [d[k].append(x)] for a key that is there. *)
Fixpoint dict_set (k : string) (v : list string)
    (d : list (string * list string)) : list (string * list string) :=
  match d with
  | [] => [(k, v)]
  | (k', v') :: d' =>
      if decide (k' = k) then (k', v) :: d' else (k', v') :: dict_set k v d'
  end.

Fixpoint dict_append (k : string) (x : string)
    (d : list (string * list string)) : list (string * list string) :=
  match d with
  | [] => []
  | (k', v') :: d' =>
      if decide (k' = k) then (k', v' ++ [x]) :: d'
      else (k', v') :: dict_append k x d'
  end.

(** The three file names of an observation and a filter. *)
Definition sl_image_of (obs filt : string) : string :=
  obs +:+ "/uvot/image/sw" +:+ obs +:+ "u" +:+ filt +:+ ".sl".

Definition sk_image_of (obs filt : string) : string :=
  obs +:+ "/uvot/image/sw" +:+ obs +:+ "u" +:+ filt +:+ "_sk_corr.img".

Definition sl_file_of (obs filt : string) : string :=
  obs +:+ "/uvot/image/sw" +:+ obs +:+ "u" +:+ filt +:+ "_sl.info".

Section Driver.
Context {F : Type} `{!Scalar F}.
Variable glob : gmap string (file F) → string → list string.
Variable fits_open : world F → string → result (world F * list (hdu F)).

Record session : Type := Session {
  s_world : world F;
  s_notices : list notice
}.

Definition note (s : session) (n : notice) : session :=
  {| s_world := s_world s; s_notices := s_notices s ++ [n] |}.

(** What the program relies on of [fits.open] in its default read-only
    mode: a file that holds a stack can be opened; opening changes no file,
    reads no input and prints nothing; it leaves the arrays there are as they
    are; the stack it returns holds what the file holds, each array in an
    object of its own that did not exist before. *)
Definition reads_stacks : Prop :=
  (∀ w path hs, w_fs w !! path = Some (StackFile hs) →
     ∃ w' hdus, fits_open w path = Ok (w', hdus))
  ∧ ∀ w path w' hdus, fits_open w path = Ok (w', hdus) →
      w_fs w' = w_fs w ∧ w_stdin w' = w_stdin w ∧ w_log w' = w_log w
      ∧ (∀ k, is_Some (w_store w !! k) → w_store w' !! k = w_store w !! k)
      ∧ (∃ hs, w_fs w !! path = Some (StackFile hs)
               ∧ contents (w_store w') hdus = Ok hs)
      ∧ (∀ i j l, hdus !! i ≫= hdu_data = Some l →
                  hdus !! j ≫= hdu_data = Some l → i = j)
      ∧ ∀ i l, hdus !! i ≫= hdu_data = Some l → l ∉ dom (w_store w).

(** A sky image of folder [obs] carries the name of filter [filt]. *)
Definition names_filter (fs : gmap string (file F)) (obs filt : string)
  : Prop :=
  ∃ sk, sk ∈ glob fs (obs +:+ "/uvot/image/*_sk.img")
        ∧ filter_name_of sk = filt.

(** [sl_manual], from the file names. *)
Definition sl_manual_files (w : world F) (sk_image sl_image sl_file : string)
    (fix_redo : bool) : result (world F) :=
  sl_data ← load_table w sl_file;
  '(w, hdu_sk) ← fits_open w sk_image;
  '(w, hdu_sl) ← fits_open w sl_image;
  '(_, w) ← sl_manual_loop sl_file fix_redo hdu_sk hdu_sl
              (seq 1 (length hdu_sk - 1)) sl_data w;
  Ok w.

(** [sl_apply], from the file names. *)
Definition sl_apply_files (s : session) (sk_image sl_image sl_file : string)
  : result session :=
  let s := note s Applying in
  let w := s_world s in
  sl_data ← match w_fs w !! sl_file with
            | None => Raise FileNotFoundError
            | Some (TableFile t) => Ok t
            | Some (StackFile _) => Raise ValueError
            end;
  '(w, hdu_sk) ← fits_open w sk_image;
  '(w, hdu_sl) ← fits_open w sl_image;
  h0 ← or_raise IndexError (hdu_sk !! 0);
  '(st, hdu_new) ←
    sl_apply_loop sl_data hdu_sk hdu_sl (seq 1 (length hdu_sk - 1))
                  (w_store w)
                  [ {| hdu_data := hdu_data h0; hdu_header := hdu_header h0 |} ];
  out ← contents st hdu_new;
  Ok {| s_world :=
          {| w_store := st;
             w_fs := <[py_replace "_corr.img" "_corr_sl.img" sk_image
                       := StackFile out]> (w_fs w);
             w_stdin := w_stdin w;
             w_log := w_log w |};
        s_notices := s_notices s |}.

(** Lines 65-68: the filters named by the sky images of folder [i]. *)
Definition note_filters (filter_list : list string) (i : string)
    (sk_list : list string) (filter_exist : list (string * list string))
  : list (string * list string) :=
  foldl (λ d sk,
           let filter_name := filter_name_of sk in
           if bool_decide (filter_name ∈ filter_list)
           then dict_append i filter_name d else d)
        filter_exist sk_list.

(** Lines 53-68. *)
Definition scan_folders (fs : gmap string (file F))
    (filter_list input_folders : list string)
  : list (string * list string) * list notice :=
  foldl (λ acc i,
           let sk_list := glob fs (i +:+ "/uvot/image/*_sk.img") in
           (note_filters filter_list i sk_list acc.1,
            if decide (length sk_list = 0)
            then acc.2 ++ [NoImagesFolder i] else acc.2))
        (foldl (λ d key, dict_set key [] d) [] input_folders, [])
        input_folders.

(** Lines 88-113: one observation of one filter. *)
Definition fix_obs (fix_redo : bool) (filt obs : string) (s : session)
  : result session :=
  let s := note s (Observation obs filt) in
  let sl_image := sl_image_of obs filt in
  if decide (w_fs (s_world s) !! sl_image = None)
  then Ok (note s (NoTemplate filt obs))
  else
    let sk_image := sk_image_of obs filt in
    let sl_file := sl_file_of obs filt in
    w ← sl_manual_files (s_world s) sk_image sl_image sl_file fix_redo;
    sl_apply_files {| s_world := w; s_notices := s_notices s |}
                   sk_image sl_image sl_file.

Fixpoint fix_obs_list (fix_redo : bool) (filt : string)
    (obs_list : list string) (s : session) : result session :=
  match obs_list with
  | [] => Ok s
  | obs :: obs_list' =>
      s' ← fix_obs fix_redo filt obs s;
      fix_obs_list fix_redo filt obs_list' s'
  end.

(** Lines 75-113: one filter. *)
Definition fix_filter (fix_redo : bool)
    (filter_exist : list (string * list string)) (filt : string) (s : session)
  : result session :=
  let obs_list :=
    map fst (filter (λ im, filt ∈ im.2) filter_exist) in
  if decide (length obs_list = 0)
  then Ok (note s (NoImagesFilter filt))
  else fix_obs_list fix_redo filt obs_list s.

Fixpoint fix_filters (fix_redo : bool)
    (filter_exist : list (string * list string)) (filters : list string)
    (s : session) : result session :=
  match filters with
  | [] => Ok s
  | filt :: filters' =>
      s' ← fix_filter fix_redo filter_exist filt s;
      fix_filters fix_redo filter_exist filters' s'
  end.

Definition fix_sl (w : world F) (input_folders : list string)
    (output_prefix : string) (filter_list : list string) (fix_redo : bool)
  : result session :=
  let '(filter_exist, notices) :=
    scan_folders (w_fs w) filter_list input_folders in
  fix_filters fix_redo filter_exist filter_list
              {| s_world := w; s_notices := notices |}.

End Driver.

Arguments session F : clear implicits.

(** A reader to run the model on: every array of the file goes into a new
    object. *)
Section SampleReader.
Context {F : Type} `{!Scalar F}.

Fixpoint load_hdus (st : gmap nat (ndarray F))
    (hs : list (option (ndarray F) * header F))
  : gmap nat (ndarray F) * list (hdu F) :=
  match hs with
  | [] => (st, [])
  | (d, hdr) :: hs' =>
      match d with
      | None =>
          let '(st', hdus) := load_hdus st hs' in
          (st', {| hdu_data := None; hdu_header := hdr |} :: hdus)
      | Some a =>
          let '(st1, l) := alloc st a in
          let '(st', hdus) := load_hdus st1 hs' in
          (st', {| hdu_data := Some l; hdu_header := hdr |} :: hdus)
      end
  end.

Definition sample_fits_open (w : world F) (path : string)
  : result (world F * list (hdu F)) :=
  match w_fs w !! path with
  | Some (StackFile hs) =>
      let '(st, hdus) := load_hdus (w_store w) hs in
      Ok ({| w_store := st; w_fs := w_fs w; w_stdin := w_stdin w;
             w_log := w_log w |}, hdus)
  | _ => Raise FileNotFoundError
  end.

End SampleReader.

(** ** Exact rational scalars

    An implementation of the scalar interface to run the model on: exact
    rationals in lowest terms, all of them of a floating-point dtype.  There
    is no rounding and no NaN, [x / 0] is [0], and [e ** x] is computed at the
    integer part of [x] (the runs below use integral exponents only).
    [float(token)] reads the decimal literals [[+-]digits[.digits]]; Python
    also reads exponents, [inf], [nan], underscores and surrounding blanks,
    which the runs below do not use. *)

(** The integer nearest to [x] between [0] and [x]. *)
Definition Qtrunc (x : Q) : Z :=
  if Qle_bool 0 x then Qfloor x else Qceiling x.

Definition digit_val (c : Ascii.ascii) : option Z :=
  let n := nat_of_ascii c in
  if decide (48 ≤ n ≤ 57) then Some (Z.of_nat (n - 48)) else None.

Fixpoint digits (acc : Z) (s : string) : option Z :=
  match s with
  | EmptyString => Some acc
  | String c s' =>
      match digit_val c with
      | Some d => digits (10 * acc + d) s'
      | None => None
      end
  end.

Definition unsigned_decimal (s : string) : option Q :=
  match py_split "."%char s with
  | [ip] =>
      if decide (ip = EmptyString) then None
      else n ← digits 0 ip; Some (inject_Z n)
  | [ip; fp] =>
      if decide (ip = EmptyString ∧ fp = EmptyString) then None
      else n ← digits 0 (ip +:+ fp);
           Some (Qred (Qmake n (Z.to_pos (10 ^ Z.of_nat (String.length fp)))))
  | _ => None
  end.

Definition Q_of_string (s : string) : option Q :=
  match s with
  | String "-"%char s' => Qopp <$> unsigned_decimal s'
  | String "+"%char s' => unsigned_decimal s'
  | _ => unsigned_decimal s
  end.

Global Instance Q_scalar : Scalar Q := {|
  zero := 0%Q;
  eqb := Qeq_bool;
  gtb := λ x y, negb (Qle_bool x y);
  leb := Qle_bool;
  add := λ x y, Qred (x + y);
  sub := λ x y, Qred (x - y);
  mul := λ x y, Qred (x * y);
  div := λ x y, Qred (x / y);
  pow := λ e x, Qred (Qpower e (Qfloor x));
  minimum := λ x y, if Qle_bool x y then x else y;
  add_reduce := λ l, Qred (foldl Qplus 0%Q l);
  of_count := λ n, inject_Z (Z.of_nat n);
  lit_1_2 := Qmake 6 5;
  lit_0_4 := Qmake 2 5;
  py_float := Q_of_string;
  dtype_of := λ _, Floating;
  astype := λ d x, match d with
                   | Integer => inject_Z (Qtrunc x)
                   | Floating => x
                   end
|}.

(** ** Numbers with their dtype

    A second implementation of the scalar interface, in which a number is of
    an integer or of a floating-point type, as a NumPy scalar is.  Integers
    are exact; floating-point numbers are the exact rationals above.  An
    operation on two integers gives an integer, except the division [/],
    which gives a floating-point number, as every operation with a
    floating-point operand does.  Conversion to the integer type drops the
    fraction. *)

Inductive npnum : Type :=
  | NInt (z : Z)
  | NFloat (q : Q).

Definition npval (x : npnum) : Q :=
  match x with
  | NInt z => inject_Z z
  | NFloat q => q
  end.

Definition np_binop (fz : Z → Z → Z) (fq : Q → Q → Q) (x y : npnum) : npnum :=
  match x, y with
  | NInt a, NInt b => NInt (fz a b)
  | _, _ => NFloat (fq (npval x) (npval y))
  end.

Global Instance npnum_scalar : Scalar npnum := {|
  zero := NInt 0;
  eqb := λ x y, eqb (npval x) (npval y);
  gtb := λ x y, gtb (npval x) (npval y);
  leb := λ x y, leb (npval x) (npval y);
  add := np_binop Z.add add;
  sub := np_binop Z.sub sub;
  mul := np_binop Z.mul mul;
  div := λ x y, NFloat (div (npval x) (npval y));
  pow := np_binop Z.pow pow;
  minimum := λ x y, if leb (npval x) (npval y) then x else y;
  add_reduce := foldl (np_binop Z.add add) (NInt 0);
  of_count := λ n, NInt (Z.of_nat n);
  lit_1_2 := NFloat (Qmake 6 5);
  lit_0_4 := NFloat (Qmake 2 5);
  py_float := λ s, NFloat <$> Q_of_string s;
  dtype_of := λ x, match x with NInt _ => Integer | NFloat _ => Floating end;
  astype := λ d x,
    match d, x with
    | Integer, NInt _ => x
    | Integer, NFloat q => NInt (Qtrunc q)
    | Floating, NInt z => NFloat (inject_Z z)
    | Floating, NFloat _ => x
    end
|}.

(** ** Sample data for the runs below *)

Definition row_image (d : list Q) : ndarray Q :=
  {| shape := (1, length d); data := d |}.

Definition ex_counts : ndarray Q := row_image [3%Q; 5%Q].
Definition ex_template : ndarray Q := row_image [3%Q; 5%Q].

(** Two separate array objects, counts at 0 and template at 1. *)
Definition ex_store : gmap nat (ndarray Q) :=
  {[ 0 := ex_counts; 1 := ex_template ]}.

(** One array object passed as both arguments. *)
Definition ex_alias_store : gmap nat (ndarray Q) := {[ 0 := ex_template ]}.

(** A stack pair with one extension, starting at time 100, and a table that
    has its record. *)
Definition ex_header (t : Q) : header Q := {| tstart := t; cards := [] |}.

Definition ex_hdu_sk : list (hdu Q) :=
  [ {| hdu_data := None; hdu_header := ex_header 0%Q |};
    {| hdu_data := Some 0; hdu_header := ex_header 100%Q |} ].

Definition ex_hdu_sl : list (hdu Q) :=
  [ {| hdu_data := None; hdu_header := ex_header 0%Q |};
    {| hdu_data := Some 1; hdu_header := ex_header 100%Q |} ].

Definition ex_table : list (row Q) :=
  [ {| r_tstart := 100%Q; r_exp_param := 2%Q; r_flat_param := 1%Q |} ].

Definition ex_world (fs : gmap string (file Q)) (stdin : list string)
  : world Q :=
  {| w_store := ex_store; w_fs := fs; w_stdin := stdin; w_log := [] |}.

(** The same world with the parameter file in place. *)
Definition ex_apply_world : world Q :=
  ex_world {[ "p.info"%string := TableFile ex_table ]} [].


(** A stack pair with two extensions, starting at times 100 and 200, each
    array in an object of its own. *)
Definition ex2_store : gmap nat (ndarray Q) :=
  {[ 0 := ex_counts; 1 := ex_template; 2 := ex_counts; 3 := ex_template ]}.

Definition ex2_hdu_sk : list (hdu Q) :=
  [ {| hdu_data := None; hdu_header := ex_header 0%Q |};
    {| hdu_data := Some 0; hdu_header := ex_header 100%Q |};
    {| hdu_data := Some 2; hdu_header := ex_header 200%Q |} ].

Definition ex2_hdu_sl : list (hdu Q) :=
  [ {| hdu_data := None; hdu_header := ex_header 0%Q |};
    {| hdu_data := Some 1; hdu_header := ex_header 100%Q |};
    {| hdu_data := Some 3; hdu_header := ex_header 200%Q |} ].

Definition ex2_world (fs : gmap string (file Q)) (stdin : list string)
  : world Q :=
  {| w_store := ex2_store; w_fs := fs; w_stdin := stdin; w_log := [] |}.

Definition np_image (d : list npnum) : ndarray npnum :=
  {| shape := (1, length d); data := d |}.

(** Floating-point counts at 0 and a template of integers at 1. *)
Definition ex_int_store : gmap nat (ndarray npnum) :=
  {[ 0 := np_image [NFloat 3; NFloat 5]; 1 := np_image [NInt 3; NInt 5] ]}.


(** An observation folder [obs] with one sky image, in filter [w1], and the
    stacks of that filter on disk: one extension beyond the first, starting
    at time 100.  No array is loaded and there is no parameter file. *)
Definition ex_glob (fs : gmap string (file Q)) (pattern : string)
  : list string :=
  if decide (pattern = "obs/uvot/image/*_sk.img"%string)
  then filter (λ p, is_Some (fs !! p)) ["obs/uvot/image/swobsuw1_sk.img"%string]
  else [].

Definition ex_cs : list (option (ndarray Q) * header Q) :=
  [ (None, ex_header 0%Q); (Some ex_counts, ex_header 100%Q) ].

Definition ex_ss : list (option (ndarray Q) * header Q) :=
  [ (None, ex_header 0%Q); (Some ex_template, ex_header 100%Q) ].

Definition ex_disk (cs : list (option (ndarray Q) * header Q))
    (stdin : list string) : world Q :=
  {| w_store := ∅;
     w_fs := {[ "obs/uvot/image/swobsuw1_sk.img"%string := StackFile cs;
                sk_image_of "obs" "w1" := StackFile cs;
                sl_image_of "obs" "w1" := StackFile ex_ss ]};
     w_stdin := stdin; w_log := [] |}.

(** The same folder without the scattered-light image. *)
Definition ex_bare_disk : world Q :=
  {| w_store := ∅;
     w_fs := {[ "obs/uvot/image/swobsuw1_sk.img"%string := StackFile ex_cs ]};
     w_stdin := []; w_log := [] |}.

(** * Results *)

(** ** Selection and assignment by index agree with their mask forms *)

Section IndexLemmas.
Context {A : Type}.
Implicit Types (l pre : list A) (mask : list bool).

Lemma getitem_where mask : ∀ pre l,
  length mask ≤ length l →
  getitem (pre ++ l) (where_from (length pre) mask) = Ok (sel mask l).
Proof.
  induction mask as [|b mask IH]; intros pre l Hlen; [done|].
  destruct l as [|x l]; simpl in Hlen; [lia|].
  assert (Hstep : getitem (pre ++ x :: l) (where_from (S (length pre)) mask)
                  = Ok (sel mask l)).
  { specialize (IH (pre ++ [x]) l).
    rewrite length_app, <- (assoc_L (++)) in IH. simpl in IH.
    rewrite Nat.add_1_r in IH. apply IH. lia. }
  destruct b; simpl; [|exact Hstep].
  rewrite list_lookup_middle by done. simpl.
  rewrite Hstep. done.
Qed.

Lemma setitem_where (g : A → A) mask : ∀ pre l,
  length mask ≤ length l →
  setitem (pre ++ l) (where_from (length pre) mask) (map g (sel mask l))
  = Ok (pre ++ on_mask g mask l).
Proof.
  induction mask as [|b mask IH]; intros pre l Hlen.
  { destruct l; done. }
  destruct l as [|x l]; simpl in Hlen; [lia|].
  assert (Hstep : ∀ y, setitem (pre ++ y :: l)
                         (where_from (S (length pre)) mask)
                         (map g (sel mask l))
                       = Ok (pre ++ y :: on_mask g mask l)).
  { intros y. specialize (IH (pre ++ [y]) l).
    rewrite length_app, <- !(assoc_L (++)) in IH. simpl in IH.
    rewrite Nat.add_1_r in IH. apply IH. lia. }
  destruct b; simpl; [|apply Hstep].
  rewrite decide_True by (rewrite length_app; simpl; lia).
  rewrite insert_app_r_alt, Nat.sub_diag by lia. simpl.
  apply Hstep.
Qed.

Lemma getitem_np_where mask l :
  length mask ≤ length l → getitem l (np_where mask) = Ok (sel mask l).
Proof. apply (getitem_where mask []). Qed.

Lemma setitem_np_where (g : A → A) mask l :
  length mask ≤ length l →
  setitem l (np_where mask) (map g (sel mask l)) = Ok (on_mask g mask l).
Proof. apply (setitem_where g mask []). Qed.

Lemma length_on_mask (g : A → A) mask : ∀ l,
  length (on_mask g mask l) = length l.
Proof.
  induction mask as [|b mask IH]; intros [|x l]; simpl; try done.
  by rewrite IH.
Qed.

End IndexLemmas.

(** ** A closed form of [calc_counts_image] *)

Section TransformLemmas.
Context {F : Type} `{!Scalar F}.
Implicit Types (st : gmap nat (ndarray F)) (a c s : ndarray F).

Lemma length_fov_mask (d : list F) : length (fov_mask d) = length d.
Proof. unfold fov_mask. by rewrite length_map. Qed.

Lemma spec_consumed_on_mask (d : list F) (e : F) :
  on_mask (λ x, assign x (pow e x)) (fov_mask d)
          (on_mask (λ x, assign x (sub x (fov_min d))) (fov_mask d) d)
  = spec_consumed d e.
Proof.
  unfold spec_consumed.
  generalize (fov_min d). intros mn.
  unfold fov_mask.
  induction d as [|x d IH]; simpl; [done|].
  rewrite IH. by destruct (gtb x zero).
Qed.

Lemma np_min_fov_values (d : list F) :
  fov_values d ≠ [] → np_min (fov_values d) = Ok (fov_min d).
Proof. unfold fov_min. by destruct (fov_values d). Qed.

Lemma calc_counts_image_closed st sk sl e f s0 :
  st !! sl = Some s0 →
  calc_counts_image st sk sl e f =
    if decide (fov_values (data s0) = []) then Raise ValueError
    else
      let t := with_data s0 (code_template (data s0) e f) in
      let st2 := <[sl := with_data s0 (spec_consumed (data s0) e)]> st in
      let st6 := <[fresh (dom st2) := t]> st2 in
      c ← read st6 sk; r ← np_divide c t; Ok (alloc st6 r).
Proof.
  intros Hsl. unfold calc_counts_image, read. rewrite Hsl.
  cbn [or_raise mbind result_bind].
  fold (fov_mask (data s0)).
  set (mask := fov_mask (data s0)).
  assert (Hm : length mask ≤ length (data s0)).
  { unfold mask. by rewrite length_fov_mask. }
  rewrite (getitem_np_where mask (data s0) Hm).
  cbn [or_raise mbind result_bind].
  change (sel mask (data s0)) with (fov_values (data s0)).
  destruct (decide (fov_values (data s0) = [])) as [Hnil|Hne].
  { by rewrite Hnil. }
  rewrite (np_min_fov_values _ Hne).
  cbn [or_raise mbind result_bind].
  set (mn := fov_min (data s0)). unfold fov_values. fold mask.
  rewrite (setitem_np_where (λ x, assign x (sub x mn)) mask (data s0) Hm).
  cbn [or_raise mbind result_bind].
  rewrite lookup_insert_eq. cbn [or_raise mbind result_bind with_data data shape].
  rewrite getitem_np_where by (by rewrite length_on_mask).
  cbn [or_raise mbind result_bind].
  rewrite setitem_np_where by (by rewrite length_on_mask).
  cbn [or_raise mbind result_bind].
  rewrite insert_insert_eq, lookup_insert_eq.
  cbn [or_raise mbind result_bind with_data data shape].
  rewrite getitem_np_where by (by rewrite !length_on_mask).
  cbn [or_raise mbind result_bind alloc].
  rewrite lookup_insert_eq.
  cbn [or_raise mbind result_bind with_data data shape].
  rewrite getitem_np_where by (by rewrite length_map, !length_on_mask).
  cbn [or_raise mbind result_bind].
  rewrite !insert_insert_eq, !lookup_insert_eq.
  cbn [or_raise mbind result_bind with_data data shape].
  rewrite !insert_insert_eq, !lookup_insert_eq.
  cbn [or_raise mbind result_bind with_data data shape].
  rewrite !insert_insert_eq, !lookup_insert_eq.
  cbn [or_raise mbind result_bind with_data data shape].
  unfold with_data. cbn [shape data].
  rewrite <- (spec_consumed_on_mask (data s0) e).
  unfold code_template. fold mask. fold mn.
  cbv zeta. rewrite !map_map. reflexivity.
Qed.

Lemma fresh_insert_ne st l a k :
  is_Some (st !! k) → fresh (dom (<[l := a]> st)) ≠ k.
Proof.
  intros Hk Heq.
  apply (is_fresh (dom (<[l := a]> st))). rewrite Heq.
  apply elem_of_dom. destruct (decide (l = k)) as [->|Hne].
  - rewrite lookup_insert_eq. eauto.
  - by rewrite lookup_insert_ne.
Qed.

Lemma calc_counts_image_post st sk sl c s e f :
  st !! sk = Some c → st !! sl = Some s →
  calc_counts_image st sk sl e f =
    r ← transform_value (bool_decide (sk = sl)) c s e f;
    let st2 := <[sl := with_data s (spec_consumed (data s) e)]> st in
    let st6 :=
      <[fresh (dom st2) := with_data s (code_template (data s) e f)]> st2 in
    Ok (alloc st6 r).
Proof.
  intros Hsk Hsl. rewrite (calc_counts_image_closed _ _ _ _ _ _ Hsl).
  unfold transform_value.
  destruct (decide (fov_values (data s) = [])); [done|].
  cbv zeta. unfold read.
  rewrite lookup_insert_ne by (apply fresh_insert_ne; eauto).
  case_bool_decide as Halias.
  - subst sk. by rewrite lookup_insert_eq.
  - rewrite lookup_insert_ne by done. by rewrite Hsk.
Qed.

Lemma fov_values_nonempty (d : list F) : has_fov d ↔ fov_values d ≠ [].
Proof.
  unfold has_fov, fov_values, fov_mask. induction d as [|x d IH]; simpl.
  - split; [intros (y & Hy & _); by apply elem_of_nil in Hy | done].
  - destruct (gtb x zero) eqn:Hx.
    + split; [done | intros _; exists x; split; [left | done]].
    + rewrite <- IH. split.
      * intros (y & Hy & Hpos). apply elem_of_cons in Hy as [->|Hy].
        -- congruence.
        -- eauto.
      * intros (y & Hy & Hpos). exists y. split; [by right | done].
Qed.

Lemma np_divide_same_shape a b :
  shape a = shape b →
  np_divide a b
  = Ok {| shape := shape a; data := zip_with div (data a) (data b) |}.
Proof. intros Hs. unfold np_divide. by rewrite decide_True. Qed.

(** Into an element of a floating-point dtype a floating-point value is
    stored as it is. *)
Lemma assign_exact `{!ScalarLaws F} (x y : F) :
  dtype_of x = Floating → dtype_of y = Floating → assign x y = y.
Proof.
  intros Hx Hy. unfold assign. rewrite Hx, <- Hy. apply astype_same.
Qed.





Lemma spec_consumed_floating `{!ScalarLaws F} `{!Promotion F} (d : list F)
    (e : F) :
  floating d →
  spec_consumed d e
  = map (λ x, if gtb x zero then pow e (sub x (fov_min d)) else x) d.
Proof.
  intros Hd. unfold spec_consumed, floating in *. rewrite Forall_forall in Hd.
  apply map_ext_in. intros x Hx. apply list_elem_of_In in Hx.
  destruct (gtb x zero); [|done]. cbv zeta.
  assert (Hxf : dtype_of x = Floating) by (by apply Hd).
  assert (Hy : dtype_of (sub x (fov_min d)) = Floating) by (by apply sub_float).
  rewrite (assign_exact x _ Hxf Hy).
  apply assign_exact; [done | by apply pow_float].
Qed.


End TransformLemmas.


(** ** The transform: value, shape and frame *)

Section TransformClaims.
Context {F : Type} `{!Scalar F}.
Implicit Types (st : gmap nat (ndarray F)) (c s r : ndarray F).

(** What a successful call leaves in the store. *)
Lemma calc_counts_image_Ok st sk sl c s e f st' l :
  st !! sk = Some c → st !! sl = Some s →
  calc_counts_image st sk sl e f = Ok (st', l) →
  ∃ r l1,
    transform_value (bool_decide (sk = sl)) c s e f = Ok r
    ∧ (l1 ∉ dom st) ∧ (l ∉ dom st) ∧ l ≠ l1
    ∧ st' = <[l := r]>
              (<[l1 := with_data s (code_template (data s) e f)]>
                 (<[sl := with_data s (spec_consumed (data s) e)]> st)).
Proof.
  intros Hsk Hsl. rewrite (calc_counts_image_post _ _ _ _ _ _ _ Hsk Hsl).
  destruct (transform_value _ c s e f) as [r|x] eqn:Hv; [|done].
  cbn [mbind result_bind alloc]. cbv zeta. intros [= <- <-].
  set (st2 := <[sl := _]> st).
  assert (Hdom : dom st2 = dom st).
  { unfold st2. rewrite dom_insert_L.
    assert (sl ∈ dom st) by (apply elem_of_dom; eauto). set_solver. }
  pose proof (is_fresh (dom st2)) as Hf1.
  set (l1 := fresh (dom st2)) in *.
  set (st6 := <[l1 := _]> st2).
  pose proof (is_fresh (dom st6)) as Hf2.
  set (l := fresh (dom st6)) in *.
  unfold st6 in Hf2. rewrite dom_insert_L in Hf2.
  rewrite Hdom in Hf1, Hf2.
  exists r, l1. split; [done|].
  split; [done|]. split; [set_solver|]. split; [set_solver | done].
Qed.

(** The call returns whenever the shapes agree and the template has a
    positive element. *)
Lemma calc_counts_image_returns st sk sl c s e f :
  st !! sk = Some c → st !! sl = Some s → shape c = shape s →
  has_fov (data s) →
  ∃ st' l, calc_counts_image st sk sl e f = Ok (st', l).
Proof.
  intros Hsk Hsl Hshape Hfov.
  rewrite (calc_counts_image_post _ _ _ _ _ _ _ Hsk Hsl).
  unfold transform_value.
  rewrite decide_False by (by apply fov_values_nonempty).
  rewrite np_divide_same_shape by (by case_bool_decide).
  cbn [mbind result_bind alloc]. cbv zeta. eauto.
Qed.



(** C8 (as amended): when the counts array and the template array are two
    different objects, a call that returns leaves the counts array as it
    was. *)
Theorem calc_counts_image_keeps_counts st sk sl c s e f st' l :
  st !! sk = Some c → st !! sl = Some s → sk ≠ sl →
  calc_counts_image st sk sl e f = Ok (st', l) →
  st' !! sk = Some c.
Proof.
  intros Hsk Hsl Hne Hcall.
  destruct (calc_counts_image_Ok _ _ _ _ _ _ _ _ _ Hsk Hsl Hcall)
    as (r & l1 & _ & Hl1 & Hl & _ & ->).
  assert (sk ∈ dom st) by (apply elem_of_dom; eauto).
  rewrite !lookup_insert_ne by set_solver. done.
Qed.

(** C9: a call that returns, followed by a second call with the same
    arguments after the template array has been given its original contents
    back, returns an array with the same contents as the first. *)
Theorem calc_counts_image_deterministic st sk sl c s e f st1 l1 :
  st !! sk = Some c → st !! sl = Some s →
  calc_counts_image st sk sl e f = Ok (st1, l1) →
  ∃ st2 l2,
    calc_counts_image (<[sl := s]> st1) sk sl e f = Ok (st2, l2)
    ∧ st2 !! l2 = st1 !! l1.
Proof.
  intros Hsk Hsl Hcall.
  destruct (calc_counts_image_Ok _ _ _ _ _ _ _ _ _ Hsk Hsl Hcall)
    as (r & k & Hv & Hk & Hl & Hlk & ->).
  assert (Hsk_in : sk ∈ dom st) by (apply elem_of_dom; eauto).
  assert (Hsl_in : sl ∈ dom st) by (apply elem_of_dom; eauto).
  set (st1 := <[l1 := r]> _) in *.
  assert (Hsl' : <[sl := s]> st1 !! sl = Some s) by apply lookup_insert_eq.
  assert (Hsk' : <[sl := s]> st1 !! sk = Some c).
  { destruct (decide (sl = sk)) as [<-|Hne].
    - rewrite lookup_insert_eq. congruence.
    - rewrite lookup_insert_ne by done. unfold st1.
      rewrite !lookup_insert_ne by set_solver. done. }
  rewrite (calc_counts_image_post _ _ _ _ _ _ _ Hsk' Hsl'), Hv.
  cbn [mbind result_bind alloc]. cbv zeta.
  eexists _, _. split; [reflexivity|].
  rewrite lookup_insert_eq. unfold st1. by rewrite lookup_insert_eq.
Qed.


End TransformClaims.

(** ** Runs on exact rationals *)

Global Instance Q_scalar_laws : ScalarLaws Q.
Proof.
  split.
  - intros x y. apply Qred_complete, Qplus_comm.
  - intros x y. apply Qred_complete, Qmult_comm.
  - intros x y. cbn [eqb Q_scalar].
    destruct (Qeq_bool x y) eqn:Hxy, (Qeq_bool y x) eqn:Hyx; try done.
    + apply Qeq_bool_iff in Hxy. symmetry in Hxy.
      apply Qeq_bool_iff in Hxy. congruence.
    + apply Qeq_bool_iff in Hyx. symmetry in Hyx.
      apply Qeq_bool_iff in Hyx. congruence.
  - intros x y. cbn [leb gtb Q_scalar]. by intros ->.
  - done.
Qed.

Global Instance Q_promotion : Promotion Q.
Proof. by split. Qed.


(** The laws hold of the numbers with a dtype as well. *)
Global Instance npnum_scalar_laws : ScalarLaws npnum.
Proof.
  split.
  - intros [a|p] [b|q]; cbn [add npnum_scalar np_binop npval];
      f_equal; (apply Z.add_comm || apply add_comm).
  - intros [a|p] [b|q]; cbn [mul npnum_scalar np_binop npval];
      f_equal; (apply Z.mul_comm || apply mul_comm).
  - intros x y. apply (eqb_sym (npval x) (npval y)).
  - intros x y. apply (leb_not_gtb (npval x) (npval y)).
  - by intros [a|p].
Qed.

Global Instance npnum_promotion : Promotion npnum.
Proof.
  split; try done.
  - by intros [a|p] [b|q].
  - by intros [a|p] [b|q].
  - intros s x. cbn [py_float npnum_scalar].
    destruct (Q_of_string s); [|done]. by intros [= <-].
Qed.

Lemma ex_template_has_fov : has_fov (data ex_template).
Proof. exists 5%Q. split; [by right; left | done]. Qed.

Lemma ex_call_returns (e f : Q) :
  ∃ st' l, calc_counts_image ex_store 0 1 e f = Ok (st', l).
Proof.
  apply (calc_counts_image_returns ex_store 0 1 ex_counts ex_template);
    [reflexivity | reflexivity | reflexivity | exact ex_template_has_fov].
Qed.




(** C8, as stated, fails: when the array passed as [sk_array] is also the one
    passed as [sl_array], the assignments into the template change it, and
    [[3, 5]] holds [[1, 4]] after the call with [e = 2], [f = 1]. *)
Lemma calc_counts_image_keeps_counts_counterexample :
  ex_alias_store !! 0 = Some (row_image [3%Q; 5%Q])
  ∧ left_at 0 (calc_counts_image ex_alias_store 0 0 2%Q 1%Q)
    = Ok (Some (row_image [1%Q; 4%Q])).
Proof. split; vm_compute; reflexivity. Qed.

Lemma calc_counts_image_keeps_counts_witness :
  ∃ st' l,
    calc_counts_image ex_store 0 1 2%Q 1%Q = Ok (st', l)
    ∧ st' !! 0 = Some ex_counts.
Proof.
  destruct (ex_call_returns 2%Q 1%Q) as (st' & l & Hcall).
  exists st', l. split; [exact Hcall|].
  apply (calc_counts_image_keeps_counts ex_store 0 1 ex_counts ex_template
           2%Q 1%Q st' l); [reflexivity | reflexivity | lia | exact Hcall].
Defined.

Lemma calc_counts_image_deterministic_witness :
  ∃ st1 l1 st2 l2,
    calc_counts_image ex_store 0 1 2%Q 1%Q = Ok (st1, l1)
    ∧ calc_counts_image (<[1 := ex_template]> st1) 0 1 2%Q 1%Q = Ok (st2, l2)
    ∧ st2 !! l2 = st1 !! l1.
Proof.
  destruct (ex_call_returns 2%Q 1%Q) as (st1 & l1 & Hcall).
  destruct (calc_counts_image_deterministic ex_store 0 1 ex_counts ex_template
              2%Q 1%Q st1 l1 eq_refl eq_refl Hcall) as (st2 & l2 & H2 & Heq).
  exists st1, l1, st2, l2. auto.
Defined.

(** C10, as stated, fails: in a template of integers the element [5], with
    minimum [3] and [e = 3/2], holds [2] after the call, not the
    exponentiated value [(3/2) ** 2 = 9/4]. *)
Lemma calc_counts_image_template_frame_counterexample :
  left_at 1 (calc_counts_image ex_int_store 0 1 (NFloat (Qmake 3 2))
               (NFloat 1))
  = Ok (Some (np_image [NInt 1; NInt 2]))
  ∧ pow (NFloat (Qmake 3 2)) (sub (NInt 5) (fov_min [NInt 3; NInt 5]))
    = NFloat (Qmake 9 4).
Proof. split; vm_compute; reflexivity. Qed.


(** ** The interactive fit loop *)

Section FitClaims.
Context {F : Type} `{!Scalar F}.


(** A line of exactly one token ends the loop with the current values. *)
Lemma run_manual_loop_done (input_info : string) stdin st log sk sl
    (e f : F) st' l :
  length (input_parse input_info) = 1 →
  calc_counts_image st sk sl e f = Ok (st', l) →
  run_manual_loop (input_info :: stdin) st log sk sl e f
  = Ok (e, f, (st', stdin, log ++ [EvPrompt e f])).
Proof.
  intros H1 Hcall. cbn [run_manual_loop]. rewrite Hcall.
  cbn [mbind result_bind]. unfold parse_input. cbv zeta.
  by rewrite decide_True.
Qed.

End FitClaims.



(** ** The parameter table and the orchestrator *)

Section TableClaims.
Context {F : Type} `{!Scalar F}.
Implicit Types (sl_data : list (row F)) (w : world F) (h hl : hdu F).

Lemma col_contains_absent sl_data (x e f : F) `{!ScalarLaws F} :
  col_contains sl_data x = false →
  lookup_record sl_data x = None
  ∧ upsert sl_data x e f
    = sl_data ++ [ {| r_tstart := x; r_exp_param := e; r_flat_param := f |} ]
  ∧ stored sl_data x e f = upsert sl_data x e f.
Proof.
  unfold col_contains. induction sl_data as [|r t IH]; simpl; [done|].
  rewrite (eqb_sym (r_tstart r) x).
  destruct (eqb x (r_tstart r)); simpl; [done|].
  intros Ht. destruct (IH Ht) as (-> & -> & ->). done.
Qed.

Lemma col_contains_present sl_data (x : F) `{!ScalarLaws F} : ∀ k,
  col_contains sl_data x = true →
  ∃ n r,
    where_from k (map (λ r, eqb x (r_tstart r)) sl_data) !! 0 = Some (k + n)
    ∧ sl_data !! n = Some r
    ∧ lookup_record sl_data x = Some r
    ∧ (∀ e f, <[n := {| r_tstart := r_tstart r; r_exp_param := e;
                       r_flat_param := f |}]> sl_data
              = upsert sl_data x e f)
    ∧ ∀ e f, <[n := {| r_tstart := r_tstart r;
                      r_exp_param := assign (r_exp_param r) e;
                      r_flat_param := assign (r_flat_param r) f |}]> sl_data
             = stored sl_data x e f.
Proof.
  unfold col_contains. induction sl_data as [|r t IH]; intros k; simpl; [done|].
  rewrite (eqb_sym (r_tstart r) x).
  destruct (eqb x (r_tstart r)) eqn:Hr; simpl.
  - intros _. exists 0, r. rewrite Nat.add_0_r. done.
  - intros Ht. destruct (IH (S k) Ht) as (n & r' & Hw & Hn & Hl & Hu & Hs).
    exists (S n), r'. rewrite Nat.add_succ_r. repeat split; try done.
    + intros e f. simpl. by rewrite Hu.
    + intros e f. simpl. by rewrite Hs.
Qed.

Lemma upsert_same sl_data (x : F) r :
  lookup_record sl_data x = Some r →
  upsert sl_data x (r_exp_param r) (r_flat_param r) = sl_data.
Proof.
  induction sl_data as [|r0 t IH]; simpl; [done|].
  destruct (eqb x (r_tstart r0)).
  - intros [= <-]. by destruct r0.
  - intros Ht. by rewrite IH.
Qed.

(** Storing a record's own values leaves the table as it is. *)
Lemma stored_same `{!ScalarLaws F} sl_data (x : F) r :
  lookup_record sl_data x = Some r →
  stored sl_data x (r_exp_param r) (r_flat_param r) = sl_data.
Proof.
  induction sl_data as [|r0 t IH]; simpl; [done|].
  destruct (eqb x (r_tstart r0)).
  - intros [= <-]. unfold assign. rewrite !astype_same. by destruct r0.
  - intros Ht. by rewrite IH.
Qed.


Lemma sl_manual_ext_refit `{!ScalarLaws F} sl_file fix_redo hdu_sk hdu_sl
    i sl_data w h hl :
  hdu_sk !! i = Some h → hdu_sl !! i = Some hl →
  col_contains sl_data (tstart (hdu_header h)) = false ∨ fix_redo = true →
  sl_manual_ext sl_file fix_redo hdu_sk hdu_sl i sl_data w
  = '(e, f, w') ← run_manual (emit w (EvStarting i)) h hl
                     (seed sl_data (tstart (hdu_header h))).1
                     (seed sl_data (tstart (hdu_header h))).2;
    Ok (stored sl_data (tstart (hdu_header h)) e f,
        write_table w' sl_file (stored sl_data (tstart (hdu_header h)) e f)).
Proof.
  intros Hsk Hsl Hrefit. unfold sl_manual_ext, seed. rewrite Hsk.
  cbn [or_raise mbind result_bind]. cbv zeta.
  set (t := tstart (hdu_header h)).
  destruct (col_contains sl_data t) eqn:Hin.
  - destruct Hrefit as [Habs| ->]; [unfold t in Hin; congruence|]. cbn [andb].
    destruct (col_contains_present sl_data t 0 Hin)
      as (n & r & Hw & Hn & Hl & _ & Hs).
    unfold where_tstart, np_where. rewrite Hw, Hsl, Hl. simpl in Hn |- *.
    rewrite Hn. cbn [or_raise mbind result_bind fst snd].
    destruct (run_manual _ h hl _ _) as [[[e f] w']|x]; [|done].
    cbn [mbind result_bind]. unfold set_exp_param, set_flat_param.
    rewrite Hn. cbn [or_raise mbind result_bind].
    rewrite list_lookup_insert_eq by (by eapply lookup_lt_Some).
    cbn [or_raise mbind result_bind r_tstart r_exp_param r_flat_param].
    rewrite list_insert_insert_eq, Hs. done.
  - cbn [andb negb]. rewrite Hsl.
    destruct (col_contains_absent sl_data t lit_1_2 lit_0_4 Hin) as [Hl _].
    rewrite Hl. cbn [or_raise mbind result_bind fst snd].
    destruct (run_manual _ h hl _ _) as [[[e f] w']|x]; [|done].
    cbn [mbind result_bind].
    destruct (col_contains_absent sl_data t e f Hin) as (_ & Happ & Hst).
    by rewrite Hst, Happ.
Qed.

End TableClaims.

Section OrchestratorClaims.
Context {F : Type} `{!Scalar F}.
Implicit Types (sl_data : list (row F)) (w : world F) (h hl : hdu F).

Lemma run_manual_done w h hl sk sl (e f : F) input_info stdin st' l :
  hdu_data h = Some sk → hdu_data hl = Some sl →
  w_stdin w = input_info :: stdin →
  length (input_parse input_info) = 1 →
  calc_counts_image (w_store w) sk sl e f = Ok (st', l) →
  run_manual w h hl e f
  = Ok (e, f, {| w_store := st'; w_fs := w_fs w; w_stdin := stdin;
                 w_log := w_log w ++ [EvPrompt e f] |}).
Proof.
  intros Hsk Hsl Hin H1 Hcall. unfold run_manual.
  rewrite Hsk, Hsl, Hin. cbn [or_raise mbind result_bind].
  by rewrite (run_manual_loop_done _ _ _ _ _ _ _ _ _ _ H1 Hcall).
Qed.

(** C3: an extension whose start time is in the table, when no redo is
    asked for, is skipped: the step returns the table as it was and the world
    as it was but for the line 'skipping ...' on the output, so no prompt was
    issued, no input read, no array touched and no file written.  An extension
    whose start time is not in the table gets a fit seeded with [1.2] and
    [0.4], whatever the redo flag. *)
Theorem sl_manual_ext_skip_or_default sl_file hdu_sk hdu_sl i sl_data w h hl :
  hdu_sk !! i = Some h → hdu_sl !! i = Some hl →
  (col_contains sl_data (tstart (hdu_header h)) = true →
   sl_manual_ext sl_file false hdu_sk hdu_sl i sl_data w
   = Ok (sl_data, emit w (EvSkipping i)))
  ∧ (col_contains sl_data (tstart (hdu_header h)) = false →
     ∀ fix_redo,
       sl_manual_ext sl_file fix_redo hdu_sk hdu_sl i sl_data w
       = '(e, f, w') ← run_manual (emit w (EvStarting i)) h hl lit_1_2 lit_0_4;
         let sl_data' :=
           sl_data ++ [ {| r_tstart := tstart (hdu_header h);
                           r_exp_param := e; r_flat_param := f |} ] in
         Ok (sl_data', write_table w' sl_file sl_data')).
Proof.
  intros Hsk Hsl. unfold sl_manual_ext. rewrite Hsk.
  cbn [or_raise mbind result_bind]. cbv zeta. split.
  - by intros ->.
  - intros -> fix_redo. cbn [andb negb]. rewrite Hsl. done.
Qed.





(** C7: on a redo of an extension that has a record, the fit is seeded with
    the record's two parameters, and when the operator ends it at once with a
    line of one token the table after the step is the table before it: the
    record holds the values it held. *)
Theorem sl_manual_ext_redo_unchanged `{!ScalarLaws F} sl_file hdu_sk hdu_sl
    i sl_data w h hl sk sl r input_info stdin st' l :
  hdu_sk !! i = Some h → hdu_sl !! i = Some hl →
  hdu_data h = Some sk → hdu_data hl = Some sl →
  lookup_record sl_data (tstart (hdu_header h)) = Some r →
  w_stdin w = input_info :: stdin →
  length (input_parse input_info) = 1 →
  calc_counts_image (w_store w) sk sl (r_exp_param r) (r_flat_param r)
  = Ok (st', l) →
  sl_manual_ext sl_file true hdu_sk hdu_sl i sl_data w
  = Ok (sl_data,
        write_table
          {| w_store := st'; w_fs := w_fs w; w_stdin := stdin;
             w_log := w_log w
                      ++ [EvStarting i;
                          EvPrompt (r_exp_param r) (r_flat_param r)] |}
          sl_file sl_data).
Proof.
  intros Hsk Hsl Hdsk Hdsl Hrec Hin H1 Hcall.
  rewrite (sl_manual_ext_refit _ _ _ _ _ _ _ _ _ Hsk Hsl (or_intror eq_refl)).
  unfold seed. rewrite Hrec. cbn [fst snd].
  rewrite (run_manual_done (emit w (EvStarting i)) h hl sk sl _ _
             input_info stdin st' l Hdsk Hdsl Hin H1 Hcall).
  cbn [mbind result_bind emit w_log w_fs]. rewrite (stored_same _ _ _ Hrec).
  by rewrite <- (assoc_L (++)).
Qed.

End OrchestratorClaims.

Lemma sl_manual_ext_skip_or_default_witness :
  sl_manual_ext "p.info" false ex_hdu_sk ex_hdu_sl 1 ex_table (ex_world ∅ [])
  = Ok (ex_table, emit (ex_world ∅ []) (EvSkipping 1))
  ∧ ∀ fix_redo,
      sl_manual_ext "p.info" fix_redo ex_hdu_sk ex_hdu_sl 1 [] (ex_world ∅ [])
      = '(e, f, w') ← run_manual (emit (ex_world ∅ []) (EvStarting 1))
                         {| hdu_data := Some 0; hdu_header := ex_header 100%Q |}
                         {| hdu_data := Some 1; hdu_header := ex_header 100%Q |}
                         (Qmake 6 5) (Qmake 2 5);
        Ok ([ {| r_tstart := 100%Q; r_exp_param := e; r_flat_param := f |} ],
            write_table w' "p.info"
              [ {| r_tstart := 100%Q; r_exp_param := e; r_flat_param := f |} ]).
Proof.
  destruct (sl_manual_ext_skip_or_default "p.info" ex_hdu_sk ex_hdu_sl 1
              ex_table (ex_world ∅ []) _ _ eq_refl eq_refl) as [Hskip _].
  destruct (sl_manual_ext_skip_or_default "p.info" ex_hdu_sk ex_hdu_sl 1
              [] (ex_world ∅ []) _ _ eq_refl eq_refl) as [_ Hfit].
  split.
  - apply Hskip. vm_compute. reflexivity.
  - apply Hfit. vm_compute. reflexivity.
Defined.


Lemma sl_manual_ext_redo_unchanged_witness :
  ∃ w',
    sl_manual_ext "p.info" true ex_hdu_sk ex_hdu_sl 1 ex_table
      (ex_world ∅ ["ok"%string])
    = Ok (ex_table, w').
Proof.
  destruct (ex_call_returns 2%Q 1%Q) as (st' & l & Hcall).
  assert (H1 : length (input_parse "ok") = 1) by (vm_compute; reflexivity).
  assert (Hrec : lookup_record ex_table 100%Q
                 = Some {| r_tstart := 100%Q; r_exp_param := 2%Q;
                           r_flat_param := 1%Q |})
    by (vm_compute; reflexivity).
  eexists.
  exact (sl_manual_ext_redo_unchanged "p.info" ex_hdu_sk ex_hdu_sl 1 ex_table
           (ex_world ∅ ["ok"%string])
           {| hdu_data := Some 0; hdu_header := ex_header 100%Q |}
           {| hdu_data := Some 1; hdu_header := ex_header 100%Q |} 0 1
           {| r_tstart := 100%Q; r_exp_param := 2%Q; r_flat_param := 1%Q |}
           "ok" [] st' l eq_refl eq_refl eq_refl eq_refl Hrec eq_refl H1 Hcall).
Defined.

(** ** Replacing a pattern that occurs only as the ending *)

Lemma string_app_cons (c : Ascii.ascii) (s t : string) :
  String c s +:+ t = String c (s +:+ t).
Proof. reflexivity. Qed.

Lemma string_app_empty_l (t : string) : EmptyString +:+ t = t.
Proof. reflexivity. Qed.


Lemma string_length_app (s1 s2 : string) :
  String.length (s1 +:+ s2) = String.length s1 + String.length s2.
Proof.
  induction s1 as [|c s1 IH]; [done|].
  rewrite string_app_cons. simpl. by rewrite IH.
Qed.

Lemma prefix_cons (a b : Ascii.ascii) (old s : string) :
  String.prefix (String a old) (String b s)
  = if Ascii.ascii_dec a b then String.prefix old s else false.
Proof. reflexivity. Qed.

Lemma prefix_split (old s : string) :
  String.prefix old s = true → ∃ post, s = old +:+ post.
Proof.
  revert s. induction old as [|a old IH]; intros s.
  - intros _. by exists s.
  - destruct s as [|b s]; [by intros [=]|].
    rewrite prefix_cons.
    destruct (Ascii.ascii_dec a b) as [->|]; [|by intros [=]].
    intros Hp. destruct (IH s Hp) as [post ->]. by exists post.
Qed.




(** ** Batch apply *)

Section ApplyClaims.
Context {F : Type} `{!Scalar F} `{!ScalarLaws F} `{!Promotion F}.
Implicit Types (st : gmap nat (ndarray F)) (c s : ndarray F).
Implicit Types (sl_data : list (row F)) (hdu_sk hdu_sl hdus : list (hdu F)).









End ApplyClaims.





(** * Further properties *)

(** ** The parameter table over a whole run of [sl_manual] *)

Section LoopProperties.
Context {F : Type} `{!Scalar F} `{!ScalarLaws F}.
Implicit Types (sl_data : list (row F)) (w : world F) (h hl : hdu F).

Lemma col_contains_app sl_data1 sl_data2 (x : F) :
  col_contains (sl_data1 ++ sl_data2) x
  = col_contains sl_data1 x || col_contains sl_data2 x.
Proof. unfold col_contains. apply existsb_app. Qed.

Lemma tstart_stored sl_data (x e f : F) :
  map r_tstart (stored sl_data x e f)
  = map r_tstart sl_data ++ (if col_contains sl_data x then [] else [x]).
Proof.
  unfold col_contains. induction sl_data as [|r t IH]; simpl; [done|].
  rewrite (eqb_sym (r_tstart r) x).
  destruct (eqb x (r_tstart r)); simpl.
  - by rewrite app_nil_r.
  - by rewrite IH.
Qed.

Lemma col_contains_tstart sl_data sl_data' (x : F) :
  map r_tstart sl_data = map r_tstart sl_data' →
  col_contains sl_data x = col_contains sl_data' x.
Proof.
  unfold col_contains. revert sl_data'.
  induction sl_data as [|r t IH]; intros [|r' t']; simpl; try done.
  intros [= -> Ht]. by rewrite (IH t' Ht).
Qed.

Lemma col_contains_stored sl_data (x e f y : F) :
  col_contains (stored sl_data x e f) y
  = col_contains sl_data y
    || (negb (col_contains sl_data x) && eqb x y).
Proof.
  assert (Hc : ∀ (t1 : list (row F)) (t2 : list F), map r_tstart t1 = t2 →
            col_contains t1 y = existsb (λ t, eqb t y) t2).
  { intros t1 t2 <-. unfold col_contains.
    induction t1 as [|r t1 IH]; simpl; [done | by rewrite IH]. }
  rewrite (Hc _ _ (tstart_stored sl_data x e f)), existsb_app.
  rewrite <- (Hc sl_data _ eq_refl).
  destruct (col_contains sl_data x); simpl.
  - by rewrite orb_false_r.
  - by rewrite orb_false_r.
Qed.

Lemma run_manual_fs w h hl (e f e' f' : F) w' :
  run_manual w h hl e f = Ok (e', f', w') → w_fs w' = w_fs w.
Proof.
  unfold run_manual.
  destruct (hdu_data h) as [sk|]; [|done].
  destruct (hdu_data hl) as [sl|]; [|done].
  cbn [or_raise mbind result_bind].
  destruct (run_manual_loop _ _ _ _ _ _ _) as [[[e1 f1] [[st stdin] log]]|x];
    [|done].
  cbn [mbind result_bind]. by intros [= _ _ <-].
Qed.

(** What a step of the loop that returns has done: skipped, or refit and
    saved. *)
Lemma sl_manual_ext_Ok sl_file fix_redo hdu_sk hdu_sl i sl_data w sl_data' w' :
  sl_manual_ext sl_file fix_redo hdu_sk hdu_sl i sl_data w = Ok (sl_data', w') →
  ∃ h, hdu_sk !! i = Some h
    ∧ ((col_contains sl_data (tstart (hdu_header h)) = true
        ∧ sl_data' = sl_data ∧ w' = emit w (EvSkipping i))
       ∨ (∃ hl e f w1,
            run_manual (emit w (EvStarting i)) h hl
              (seed sl_data (tstart (hdu_header h))).1
              (seed sl_data (tstart (hdu_header h))).2 = Ok (e, f, w1)
            ∧ sl_data' = stored sl_data (tstart (hdu_header h)) e f
            ∧ w' = write_table w1 sl_file sl_data')).
Proof.
  intros Hstep.
  destruct (hdu_sk !! i) as [h|] eqn:Hh;
    [|by unfold sl_manual_ext in Hstep; rewrite Hh in Hstep].
  exists h. split; [done|].
  destruct (col_contains sl_data (tstart (hdu_header h))) eqn:Hin.
  - destruct fix_redo.
    + right. destruct (hdu_sl !! i) as [hl|] eqn:Hhl.
      * rewrite (sl_manual_ext_refit _ _ _ _ _ _ _ _ _ Hh Hhl
                   (or_intror eq_refl)) in Hstep.
        destruct (run_manual _ h hl _ _) as [[[e f] w1]|x] eqn:Hfit; [|done].
        cbn [mbind result_bind] in Hstep. injection Hstep as <- <-.
        by exists hl, e, f, w1.
      * unfold sl_manual_ext in Hstep. rewrite Hh, Hhl in Hstep.
        cbn [or_raise mbind result_bind] in Hstep. cbv zeta in Hstep.
        rewrite Hin in Hstep. cbn [andb] in Hstep.
        by destruct (where_tstart sl_data (tstart (hdu_header h)) !! 0).
    + left. unfold sl_manual_ext in Hstep. rewrite Hh in Hstep.
      cbn [or_raise mbind result_bind] in Hstep. cbv zeta in Hstep.
      rewrite Hin in Hstep. cbn [andb negb] in Hstep.
      by injection Hstep as <- <-.
  - right. destruct (hdu_sl !! i) as [hl|] eqn:Hhl.
    + rewrite (sl_manual_ext_refit _ _ _ _ _ _ _ _ _ Hh Hhl
                 (or_introl Hin)) in Hstep.
      destruct (run_manual _ h hl _ _) as [[[e f] w1]|x] eqn:Hfit; [|done].
      cbn [mbind result_bind] in Hstep. injection Hstep as <- <-.
      by exists hl, e, f, w1.
    + unfold sl_manual_ext in Hstep. rewrite Hh, Hhl in Hstep.
      cbn [or_raise mbind result_bind] in Hstep. cbv zeta in Hstep.
      rewrite Hin in Hstep. by cbn [andb negb] in Hstep.
Qed.

Lemma col_contains_map sl_data (y : F) :
  col_contains sl_data y = existsb (λ t, eqb t y) (map r_tstart sl_data).
Proof.
  unfold col_contains. induction sl_data as [|r t IH]; simpl; [done|].
  by rewrite IH.
Qed.

Lemma col_contains_grows sl_data sl_data' added (y : F) :
  map r_tstart sl_data' = map r_tstart sl_data ++ added →
  col_contains sl_data y = true → col_contains sl_data' y = true.
Proof.
  intros Hmap. rewrite !col_contains_map, Hmap, existsb_app. by intros ->.
Qed.

Lemma omap_seq_lookup {A : Type} (g : nat → option A) : ∀ n k m,
  (∀ j, j ∈ seq k n → is_Some (g j)) → m < n →
  omap g (seq k n) !! m = g (k + m).
Proof.
  induction n as [|n IH]; intros k m Hall Hm; [lia|].
  cbn [seq omap list_omap].
  destruct (Hall k) as [a Ha]; [left|]. rewrite Ha.
  destruct m as [|m]; simpl.
  - by rewrite Nat.add_0_r.
  - rewrite <- Nat.add_succ_comm. apply IH; [|lia].
    intros j Hj. apply Hall. by right.
Qed.

Lemma sl_manual_loop_table sl_file fix_redo hdu_sk hdu_sl : ∀ exts
    sl_data w sl_data' w',
  sl_manual_loop sl_file fix_redo hdu_sk hdu_sl exts sl_data w
  = Ok (sl_data', w') →
  (∃ added, map r_tstart sl_data' = map r_tstart sl_data ++ added)
  ∧ ∀ i, i ∈ exts →
      ∃ t, start_time hdu_sk i = Some t
           ∧ (eqb t t = true → col_contains sl_data' t = true).
Proof.
  induction exts as [|i rest IH]; intros sl_data w sl_data' w' Hloop.
  { injection Hloop as <- <-. split.
    - exists []. by rewrite app_nil_r.
    - intros i Hi. by apply elem_of_nil in Hi. }
  cbn [sl_manual_loop] in Hloop.
  destruct (sl_manual_ext sl_file fix_redo hdu_sk hdu_sl i sl_data w)
    as [[sl_data1 w1]|x] eqn:Hstep; [|done].
  cbn [mbind result_bind] in Hloop.
  destruct (IH _ _ _ _ Hloop) as [[added Hadd] Hrest].
  destruct (sl_manual_ext_Ok _ _ _ _ _ _ _ _ _ Hstep) as (h & Hh & Hcase).
  assert (Hstep_t : ∃ added1, map r_tstart sl_data1
                              = map r_tstart sl_data ++ added1).
  { destruct Hcase as [(_ & -> & _)|(hl & e & f & w0 & _ & -> & _)].
    - exists []. by rewrite app_nil_r.
    - rewrite tstart_stored. eauto. }
  destruct Hstep_t as [added1 Hadd1]. split.
  - exists (added1 ++ added). by rewrite Hadd, Hadd1, (assoc_L (++)).
  - intros j Hj. apply elem_of_cons in Hj as [->|Hj]; [|by apply Hrest].
    exists (tstart (hdu_header h)). unfold start_time. rewrite Hh.
    split; [done|]. intros Hself.
    apply (col_contains_grows sl_data1 sl_data' added _ Hadd).
    destruct Hcase as [(Hin & -> & _)|(hl & e & f & w0 & _ & -> & _)];
      [done|].
    rewrite col_contains_stored, Hself.
    by destruct (col_contains sl_data (tstart (hdu_header h))).
Qed.

Lemma sl_manual_loop_file sl_file fix_redo hdu_sk hdu_sl : ∀ exts
    sl_data w sl_data' w',
  load_table w sl_file = Ok sl_data →
  sl_manual_loop sl_file fix_redo hdu_sk hdu_sl exts sl_data w
  = Ok (sl_data', w') →
  load_table w' sl_file = Ok sl_data'.
Proof.
  induction exts as [|i rest IH]; intros sl_data w sl_data' w' Hload Hloop.
  { by injection Hloop as <- <-. }
  cbn [sl_manual_loop] in Hloop.
  destruct (sl_manual_ext sl_file fix_redo hdu_sk hdu_sl i sl_data w)
    as [[sl_data1 w1]|x] eqn:Hstep; [|done].
  cbn [mbind result_bind] in Hloop.
  apply (IH sl_data1 w1 sl_data' w'); [|done].
  destruct (sl_manual_ext_Ok _ _ _ _ _ _ _ _ _ Hstep) as (h & Hh & Hcase).
  destruct Hcase as [(_ & -> & ->)|(hl & e & f & w0 & _ & -> & ->)].
  - exact Hload.
  - unfold load_table, write_table. cbn [w_fs]. by rewrite lookup_insert_eq.
Qed.




Lemma sl_manual_loop_fresh sl_file fix_redo hdu_sk hdu_sl : ∀ exts
    sl_data w sl_data' w',
  sl_manual_loop sl_file fix_redo hdu_sk hdu_sl exts sl_data w
  = Ok (sl_data', w') →
  Forall (λ t, col_contains sl_data t = false) (start_times hdu_sk exts) →
  pairwise_distinct (start_times hdu_sk exts) →
  map r_tstart sl_data' = map r_tstart sl_data ++ start_times hdu_sk exts.
Proof.
  induction exts as [|i rest IH]; intros sl_data w sl_data' w' Hloop Hnew Hdist.
  { injection Hloop as <- <-. cbn. by rewrite app_nil_r. }
  cbn [sl_manual_loop] in Hloop.
  destruct (sl_manual_ext sl_file fix_redo hdu_sk hdu_sl i sl_data w)
    as [[sl_data1 w1]|x] eqn:Hstep; [|done].
  cbn [mbind result_bind] in Hloop.
  destruct (sl_manual_ext_Ok _ _ _ _ _ _ _ _ _ Hstep) as (h & Hh & Hcase).
  assert (Hts : start_times hdu_sk (i :: rest)
                = tstart (hdu_header h) :: start_times hdu_sk rest).
  { unfold start_times, start_time. cbn [omap list_omap]. by rewrite Hh. }
  rewrite Hts in *. apply Forall_cons in Hnew as [Hi Hnew].
  destruct Hdist as [Hdi Hdist].
  destruct Hcase as [(Hin & _ & _)|(hl & e & f & w0 & _ & -> & _)];
    [congruence|].
  rewrite (IH _ _ _ _ Hloop); [| |exact Hdist].
  - rewrite tstart_stored, Hi. by rewrite <- (assoc_L (++)).
  - apply Forall_forall. intros t Ht.
    rewrite col_contains_stored, Hi.
    rewrite Forall_forall in Hnew, Hdi.
    by rewrite (Hnew t Ht), (Hdi t Ht).
Qed.

(** X3: when there is no parameter file yet and the start times of the
    extensions differ from one another, a run of [sl_manual] that returns
    leaves a table whose rows are the extensions in stack order: row
    [i - 1] carries the start time of extension [i], which is the row
    [sl_apply] reads for it. *)
Theorem sl_manual_new_table_positional w hdu_sk hdu_sl sl_file fix_redo w' :
  w_fs w !! sl_file = None →
  pairwise_distinct (start_times hdu_sk (seq 1 (length hdu_sk - 1))) →
  sl_manual w hdu_sk hdu_sl sl_file fix_redo = Ok w' →
  ∃ sl_data',
    load_table w' sl_file = Ok sl_data'
    ∧ map r_tstart sl_data' = start_times hdu_sk (seq 1 (length hdu_sk - 1))
    ∧ ∀ i, 1 ≤ i < length hdu_sk →
        r_tstart <$> sl_data' !! (i - 1) = start_time hdu_sk i.
Proof.
  intros Hnone Hdist. unfold sl_manual.
  assert (Hload : load_table w sl_file = Ok []).
  { unfold load_table. by rewrite Hnone. }
  rewrite Hload. cbn [mbind result_bind].
  destruct (sl_manual_loop sl_file fix_redo hdu_sk hdu_sl _ [] w)
    as [[sl_data' w1]|x] eqn:Hloop; [|done].
  cbn [mbind result_bind]. intros [= <-].
  exists sl_data'.
  assert (Hmap : map r_tstart sl_data'
                 = start_times hdu_sk (seq 1 (length hdu_sk - 1))).
  { rewrite (sl_manual_loop_fresh _ _ _ _ _ _ _ _ _ Hloop); [done| |done].
    apply Forall_forall. by intros t _. }
  split; [by apply (sl_manual_loop_file _ _ _ _ _ _ _ _ _ Hload Hloop)|].
  split; [exact Hmap|].
  intros i Hi. rewrite <- list_lookup_fmap.
  change (r_tstart <$> sl_data') with (map r_tstart sl_data').
  rewrite Hmap. unfold start_times.
  rewrite omap_seq_lookup; [f_equal; lia| |lia].
  intros j Hj.
  destruct (sl_manual_loop_table _ _ _ _ _ _ _ _ _ Hloop) as [_ Hall].
  destruct (Hall j Hj) as (t & -> & _). eauto.
Qed.

End LoopProperties.

(** ** Runs of the orchestrator on exact rationals *)


Lemma ex2_sl_manual_returns :
  ∃ w', sl_manual (ex2_world ∅ ["ok"; "1.5 0.5"; "ok"]%string)
          ex2_hdu_sk ex2_hdu_sl "p.info" false = Ok w'.
Proof.
  destruct (sl_manual _ ex2_hdu_sk ex2_hdu_sl "p.info" false)
    as [w'|x] eqn:E; [by exists w'|].
  vm_compute in E. discriminate E.
Qed.

Lemma ex2_pairwise_distinct :
  pairwise_distinct (start_times ex2_hdu_sk (seq 1 (length ex2_hdu_sk - 1))).
Proof. cbn. repeat constructor. Qed.



Lemma sl_manual_new_table_positional_witness :
  ∃ w' sl_data',
    sl_manual (ex2_world ∅ ["ok"; "1.5 0.5"; "ok"]%string)
      ex2_hdu_sk ex2_hdu_sl "p.info" false = Ok w'
    ∧ load_table w' "p.info" = Ok sl_data'
    ∧ map r_tstart sl_data' = [100%Q; 200%Q].
Proof.
  destruct ex2_sl_manual_returns as [w' Hrun].
  destruct (sl_manual_new_table_positional
              (ex2_world ∅ ["ok"; "1.5 0.5"; "ok"]%string)
              ex2_hdu_sk ex2_hdu_sl "p.info"
              false w' (lookup_empty _) ex2_pairwise_distinct Hrun)
    as (sl_data' & Hload & Hmap & _).
  exists w', sl_data'. split; [exact Hrun|]. split; [exact Hload|exact Hmap].
Defined.

(** ** What [sl_apply] writes, whatever the arrays are *)

Section ApplyProperties.
Context {F : Type} `{!Scalar F}.
Implicit Types (st : gmap nat (ndarray F)) (w : world F).
Implicit Types (sl_data : list (row F)) (hdu_sk hdu_sl hdus : list (hdu F)).

Lemma omap_seq_shift {A : Type} (g : nat → option A) : ∀ n k,
  omap g (seq (S k) n) = omap (λ i, g (S i)) (seq k n).
Proof.
  induction n as [|n IH]; intros k; [done|].
  cbn [seq omap list_omap]. by rewrite IH.
Qed.

Lemma omap_lookup_all {A B : Type} (g : A → B) (l : list A) :
  omap (λ i, g <$> l !! i) (seq 0 (length l)) = map g l.
Proof.
  induction l as [|x l IH]; [done|].
  cbn [length seq omap list_omap lookup list_lookup fmap option_fmap
       option_map map].
  f_equal. rewrite omap_seq_shift. exact IH.
Qed.

Lemma contents_headers st hdus : ∀ outs,
  contents st hdus = Ok outs → map snd outs = map hdu_header hdus.
Proof.
  induction hdus as [|h hdus IH]; intros outs.
  { by intros [= <-]. }
  cbn [contents].
  destruct (match hdu_data h with
            | Some l0 => a0 ← read st l0; Ok (Some a0)
            | None => Ok None
            end) as [d|x]; [|done].
  cbn [mbind result_bind].
  destruct (contents st hdus) as [rest|x]; [|done].
  cbn [mbind result_bind]. intros [= <-]. cbn [map snd].
  by rewrite (IH rest eq_refl).
Qed.

Lemma sl_apply_loop_headers sl_data hdu_sk hdu_sl : ∀ exts st hdu_new st'
    hdu_new',
  sl_apply_loop sl_data hdu_sk hdu_sl exts st hdu_new = Ok (st', hdu_new') →
  map hdu_header hdu_new'
  = map hdu_header hdu_new ++ omap (λ i, hdu_header <$> hdu_sk !! i) exts.
Proof.
  induction exts as [|i rest IH]; intros st hdu_new st' hdu_new' Hloop.
  { injection Hloop as <- <-. cbn. by rewrite app_nil_r. }
  cbn [sl_apply_loop] in Hloop.
  destruct (sl_apply_ext sl_data hdu_sk hdu_sl i st hdu_new)
    as [[st1 hdu_new1]|x] eqn:Hstep; [|done].
  cbn [mbind result_bind] in Hloop.
  rewrite (IH _ _ _ _ Hloop).
  unfold sl_apply_ext in Hstep.
  destruct (hdu_sk !! i) as [h|] eqn:Hh; [|done].
  cbn [or_raise mbind result_bind] in Hstep.
  destruct (hdu_data h) as [sk|]; [|done].
  cbn [or_raise mbind result_bind] in Hstep.
  destruct (hdu_sl !! i) as [hl|]; [|done].
  cbn [or_raise mbind result_bind] in Hstep.
  destruct (hdu_data hl) as [sl|]; [|done].
  cbn [or_raise mbind result_bind] in Hstep.
  destruct (sl_data !! (i - 1)) as [r|]; [|done].
  cbn [or_raise mbind result_bind] in Hstep.
  destruct (calc_counts_image st sk sl _ _) as [[st2 l]|x]; [|done].
  cbn [mbind result_bind] in Hstep. injection Hstep as <- <-.
  rewrite map_app. cbn. rewrite Hh. cbn. by rewrite <- (assoc_L (++)).
Qed.

(** What a call of [sl_apply] that returns has done to the world. *)
Lemma sl_apply_Ok w sk_image hdu_sk hdu_sl sl_file w' :
  sl_apply w sk_image hdu_sk hdu_sl sl_file = Ok w' →
  ∃ st' entries,
    w' = {| w_store := st';
            w_fs := <[py_replace "_corr.img" "_corr_sl.img" sk_image
                      := StackFile entries]> (w_fs w);
            w_stdin := w_stdin w;
            w_log := w_log w |}
    ∧ map snd entries = map hdu_header hdu_sk.
Proof.
  unfold sl_apply.
  destruct (w_fs w !! sl_file) as [[sl_data|?]|]; [|done|done].
  cbn [mbind result_bind].
  destruct hdu_sk as [|h0 tl_sk]; [done|].
  cbn [lookup list_lookup or_raise mbind result_bind].
  destruct (sl_apply_loop sl_data (h0 :: tl_sk) hdu_sl _ (w_store w) _)
    as [[st' hdu_new]|x] eqn:Hloop; [|done].
  cbn [mbind result_bind].
  destruct (contents st' hdu_new) as [entries|x] eqn:Hcon; [|done].
  cbn [mbind result_bind]. intros [= <-].
  exists st', entries. split; [done|].
  rewrite (contents_headers _ _ _ Hcon).
  rewrite (sl_apply_loop_headers _ _ _ _ _ _ _ _ Hloop).
  cbn [map hdu_header length app]. f_equal.
  rewrite omap_seq_shift.
  replace (S (length tl_sk) - 1) with (length tl_sk) by lia.
  exact (omap_lookup_all hdu_header tl_sk).
Qed.


End ApplyProperties.

Lemma py_replace_absent (old new s : string) :
  old ≠ EmptyString →
  (∀ pre post, s ≠ pre +:+ old +:+ post) →
  py_replace old new s = s.
Proof.
  intros Hold.
  assert (Hpy : py_replace old new s = replace_from old new 0 s).
  { unfold py_replace. by destruct old. }
  rewrite Hpy. clear Hpy Hold.
  induction s as [|c s IH]; intros Habs; [done|].
  cbn [replace_from].
  destruct (String.prefix old (String c s)) eqn:Hp.
  - apply prefix_split in Hp as [post Hpost].
    destruct (Habs EmptyString post). by rewrite string_app_empty_l.
  - f_equal. apply IH. intros pre post ->.
    apply (Habs (String c pre) post). by rewrite string_app_cons.
Qed.

Section ApplyOverInput.
Context {F : Type} `{!Scalar F}.

(** X5: when the name of the counts image does not contain [_corr.img], the
    name of the output is the name of the counts image, so a call of
    [sl_apply] that returns has stored its output under the name of its
    input. *)
Theorem sl_apply_overwrites_input (w : world F) sk_image hdu_sk hdu_sl
    sl_file w' :
  (∀ pre post, sk_image ≠ pre +:+ "_corr.img" +:+ post) →
  sl_apply w sk_image hdu_sk hdu_sl sl_file = Ok w' →
  ∃ entries,
    w_fs w' !! sk_image = Some (StackFile entries)
    ∧ map snd entries = map hdu_header hdu_sk.
Proof.
  intros Habs Hrun.
  destruct (sl_apply_Ok _ _ _ _ _ _ Hrun) as (st' & entries & -> & Hhdr).
  exists entries. split; [|exact Hhdr]. cbn [w_fs].
  rewrite (py_replace_absent "_corr.img" "_corr_sl.img" sk_image) by done.
  apply lookup_insert_eq.
Qed.

End ApplyOverInput.

Lemma sl_apply_any_name {F : Type} `{!Scalar F} (w : world F)
    (a b : string) hdu_sk hdu_sl sl_file w1 :
  sl_apply w a hdu_sk hdu_sl sl_file = Ok w1 →
  ∃ w2, sl_apply w b hdu_sk hdu_sl sl_file = Ok w2.
Proof.
  unfold sl_apply.
  destruct (w_fs w !! sl_file) as [[sl_data|?]|]; [|done|done].
  cbn [mbind result_bind].
  destruct (hdu_sk !! 0) as [h0|]; [|done].
  cbn [or_raise mbind result_bind].
  destruct (sl_apply_loop _ _ _ _ _ _) as [[st1 hdu_new]|x]; [|done].
  cbn [mbind result_bind].
  destruct (contents st1 hdu_new) as [out|x]; [|done].
  cbn [mbind result_bind]. eauto.
Qed.

Lemma ex_sl_apply_returns (sk_image : string) :
  ∃ w', sl_apply ex_apply_world sk_image ex_hdu_sk ex_hdu_sl "p.info" = Ok w'.
Proof.
  destruct (sl_apply ex_apply_world "" ex_hdu_sk ex_hdu_sl "p.info")
    as [w1|x] eqn:E; [|vm_compute in E; discriminate E].
  exact (sl_apply_any_name _ _ sk_image _ _ _ _ E).
Qed.


Lemma sl_apply_overwrites_input_witness :
  ∃ w' entries,
    sl_apply ex_apply_world "sky.img" ex_hdu_sk ex_hdu_sl "p.info" = Ok w'
    ∧ w_fs w' !! "sky.img"%string = Some (StackFile entries).
Proof.
  destruct (ex_sl_apply_returns "sky.img") as [w' Hrun].
  destruct (sl_apply_overwrites_input ex_apply_world "sky.img" ex_hdu_sk
              ex_hdu_sl "p.info" w') as (entries & Hout & _);
    [|exact Hrun|by exists w', entries].
  intros pre post Heq. apply (f_equal String.length) in Heq.
  rewrite !string_length_app in Heq. cbn [String.length] in Heq. lia.
Defined.

(** ** The tokens of an input line *)

Lemma replace_from_comma_cons (c : Ascii.ascii) (s : string) :
  replace_from "," " " 0 (String c s)
  = String (if decide (c = ","%char) then " "%char else c)
           (replace_from "," " " 0 s).
Proof.
  cbn [replace_from]. rewrite prefix_cons.
  destruct (Ascii.ascii_dec "," c) as [<-|Hne].
  - rewrite decide_True by done. by destruct s.
  - by rewrite decide_False by congruence.
Qed.


Lemma replace_from_comma_app (a b : string) :
  replace_from "," " " 0 (a +:+ b)
  = replace_from "," " " 0 a +:+ replace_from "," " " 0 b.
Proof.
  induction a as [|c a IH]; [done|].
  rewrite string_app_cons, !replace_from_comma_cons, string_app_cons.
  by rewrite IH.
Qed.

Lemma py_split_nonempty (sep : Ascii.ascii) (s : string) : py_split sep s ≠ [].
Proof.
  destruct s as [|c s]; [done|]. cbn [py_split].
  destruct (decide (c = sep)); [done|]. by destruct (py_split sep s).
Qed.

Lemma py_split_app_sep (sep : Ascii.ascii) (a b : string) :
  py_split sep (a +:+ String sep b) = py_split sep a ++ py_split sep b.
Proof.
  induction a as [|c a IH].
  - rewrite string_app_empty_l. cbn [py_split]. by rewrite decide_True.
  - rewrite string_app_cons. cbn [py_split]. rewrite IH.
    destruct (decide (c = sep)); [done|].
    pose proof (py_split_nonempty sep a) as Hne.
    by destruct (py_split sep a).
Qed.






(** X7: a blank and a comma separate tokens in the same way, and the tokens
    of a line are those of what precedes a separator followed by those of
    what follows it. *)
Theorem input_parse_app_sep (a b : string) :
  input_parse (a +:+ String "," b) = input_parse a ++ input_parse b
  ∧ input_parse (a +:+ String " " b) = input_parse a ++ input_parse b.
Proof.
  unfold input_parse.
  change (py_replace "," " ") with (replace_from "," " " 0).
  rewrite !replace_from_comma_app, !replace_from_comma_cons.
  rewrite decide_True by done. rewrite decide_False by done.
  rewrite py_split_app_sep. by rewrite filter_app.
Qed.

(** ** The interactive loop as a whole *)

Section RunManualProperties.
Context {F : Type} `{!Scalar F}.
Implicit Types (st : gmap nat (ndarray F)).

Lemma calc_counts_image_template st sk sl (e f : F) r :
  calc_counts_image st sk sl e f = Ok r → is_Some (st !! sl).
Proof.
  unfold calc_counts_image, read. destruct (st !! sl); [eauto|]. by cbn.
Qed.

Lemma calc_counts_image_store st sk sl s (e f : F) st' l :
  st !! sl = Some s →
  calc_counts_image st sk sl e f = Ok (st', l) →
  st' !! sl = Some (with_data s (spec_consumed (data s) e))
  ∧ ∀ k, k ≠ sl → is_Some (st !! k) → st' !! k = st !! k.
Proof.
  intros Hsl. rewrite (calc_counts_image_closed _ _ _ _ _ _ Hsl).
  destruct (decide (fov_values (data s) = [])); [done|]. cbv zeta.
  set (st2 := <[sl := _]> st).
  assert (Hdom : dom st2 = dom st).
  { unfold st2. rewrite dom_insert_L.
    assert (sl ∈ dom st) by (apply elem_of_dom; eauto). set_solver. }
  pose proof (is_fresh (dom st2)) as Hf1.
  set (l1 := fresh (dom st2)) in *.
  set (st6 := <[l1 := _]> st2).
  pose proof (is_fresh (dom st6)) as Hf2.
  destruct (read st6 sk) as [c|x]; [|done]. cbn [mbind result_bind].
  destruct (np_divide c _) as [r|x]; [|done]. cbn [mbind result_bind alloc].
  intros [= <- <-].
  set (l := fresh (dom st6)) in *.
  unfold st6 in Hf2. rewrite dom_insert_L in Hf2. rewrite Hdom in Hf1, Hf2.
  assert (Hsl_in : sl ∈ dom st) by (apply elem_of_dom; eauto).
  assert (Hfresh : ∀ k, k ∈ dom st → l ≠ k ∧ l1 ≠ k).
  { intros k Hk. split; intros Heq; [apply Hf2 | apply Hf1];
      rewrite Heq; set_solver. }
  split.
  - destruct (Hfresh sl Hsl_in) as [Hl Hl1].
    rewrite (lookup_insert_ne _ _ _ _ Hl). unfold st6.
    rewrite (lookup_insert_ne _ _ _ _ Hl1). unfold st2.
    by rewrite lookup_insert_eq.
  - intros k Hk Hin. apply elem_of_dom in Hin.
    destruct (Hfresh k Hin) as [Hl Hl1].
    rewrite (lookup_insert_ne _ _ _ _ Hl). unfold st6.
    rewrite (lookup_insert_ne _ _ _ _ Hl1). unfold st2.
    by rewrite lookup_insert_ne.
Qed.

Lemma parse_input_Done (line : string) (e f : F) :
  parse_input line e f = Ok Done → length (input_parse line) = 1.
Proof.
  unfold parse_input. cbv zeta.
  destruct (decide (length (input_parse line) = 1)); [done|].
  destruct (decide (length (input_parse line) = 2)); [|done].
  destruct (input_parse line !! 0) as [t0|]; [|done].
  cbn [or_raise mbind result_bind].
  destruct (py_float t0); [|done]. cbn [or_raise mbind result_bind].
  destruct (input_parse line !! 1) as [t1|]; [|done].
  cbn [or_raise mbind result_bind].
  by destruct (py_float t1).
Qed.

Lemma parse_input_Again (line : string) (e f e1 f1 : F) :
  parse_input line e f = Ok (Again e1 f1) →
  length (input_parse line) ≠ 1
  ∧ (length (input_parse line) ≠ 2 → e1 = e ∧ f1 = f)
  ∧ ∀ a b, input_parse line = [a; b] →
      py_float a = Some e1 ∧ py_float b = Some f1.
Proof.
  unfold parse_input. cbv zeta.
  destruct (decide (length (input_parse line) = 1)); [done|].
  intros Hp. split; [done|].
  destruct (decide (length (input_parse line) = 2)) as [H2|H2].
  - split; [done|]. intros a b Hab. rewrite Hab in Hp.
    cbn [lookup list_lookup or_raise mbind result_bind] in Hp.
    destruct (py_float a); [|done]. cbn [or_raise mbind result_bind] in Hp.
    destruct (py_float b); [|done]. cbn [or_raise mbind result_bind] in Hp.
    by injection Hp as <- <-.
  - injection Hp as <- <-. split; [done|].
    intros a b Hab. by rewrite Hab in H2.
Qed.

(** What a run of the loop that returns has done. *)
Lemma run_manual_loop_Ok sk sl : ∀ stdin st log (e f e' f' : F) st' stdin' log',
  run_manual_loop stdin st log sk sl e f = Ok (e', f', (st', stdin', log')) →
  ∃ consumed final shown,
    stdin = consumed ++ final :: stdin'
    ∧ length (input_parse final) = 1
    ∧ Forall (λ l, length (input_parse l) ≠ 1) consumed
    ∧ length shown = length consumed
    ∧ log' = log ++ prompts ((e, f) :: shown)
    ∧ last ((e, f) :: shown) = Some (e', f')
    ∧ (Forall (λ l, length (input_parse l) ≠ 2) consumed → e' = e ∧ f' = f)
    ∧ (∀ pre l2 post a b,
         consumed = pre ++ l2 :: post → input_parse l2 = [a; b] →
         Forall (λ l, length (input_parse l) ≠ 2) post →
         py_float a = Some e' ∧ py_float b = Some f')
    ∧ (∀ k, k ≠ sl → is_Some (st !! k) → st' !! k = st !! k)
    ∧ (∀ s, st !! sl = Some s →
         st' !! sl
         = Some (with_data s (previewed (data s) ((e, f) :: shown)))).
Proof.
  induction stdin as [|line stdin IH];
    intros st log e f e' f' st' stdin' log' Hrun;
    cbn [run_manual_loop] in Hrun;
    destruct (calc_counts_image st sk sl e f) as [[st1 l]|x] eqn:Hcall;
    cbn [mbind result_bind] in Hrun; try done.
  destruct (calc_counts_image_template _ _ _ _ _ _ Hcall) as [s0 Hs0].
  destruct (calc_counts_image_store _ _ _ _ _ _ _ _ Hs0 Hcall)
    as [Htpl Hframe].
  destruct (parse_input line e f) as [[|e1 f1]|x] eqn:Hp;
    cbn [mbind result_bind] in Hrun; [| |done].
  - injection Hrun as <- <- <- <- <-.
    exists [], line, []. split; [done|].
    split; [by apply (parse_input_Done _ e f)|].
    split; [done|]. split; [done|]. split; [done|]. split; [done|].
    split; [done|]. split.
    { intros pre l2 post a b Hnil. by destruct pre. }
    split; [exact Hframe|].
    intros s Hs. rewrite Hs in Hs0. injection Hs0 as <-. exact Htpl.
  - apply parse_input_Again in Hp as (Hn1 & Hn2 & Htwo).
    destruct (IH _ _ _ _ _ _ _ _ _ Hrun)
      as (consumed & final & shown & -> & Hfinal & Hall & Hlen & -> & Hlast
          & Hsame & Hpair & Hframe' & Htpl').
    exists (line :: consumed), final, ((e1, f1) :: shown).
    split; [done|]. split; [done|]. split; [by constructor|].
    split; [by cbn; rewrite Hlen|].
    split; [by rewrite <- app_assoc|]. split; [exact Hlast|]. split.
    { intros Hno. inversion Hno as [|? ? Hline Hrest]; subst.
      destruct (Hn2 Hline) as [-> ->]. by apply Hsame. }
    split.
    { intros pre l2 post a b Heq Hab Hpost. destruct pre as [|p pre].
      - cbn in Heq. injection Heq as <- <-.
        destruct (Htwo _ _ Hab) as [Ha Hb].
        destruct (Hsame Hpost) as [-> ->]. done.
      - cbn in Heq. injection Heq as <- ->. by apply (Hpair pre l2 post). }
    split.
    { intros k Hk Hin. rewrite <- (Hframe k Hk Hin).
      apply Hframe'; [done|]. by rewrite (Hframe k Hk Hin). }
    intros s Hs. rewrite Hs in Hs0. injection Hs0 as <-.
    by rewrite (Htpl' _ Htpl).
Qed.

Lemma run_manual_Ok w hdu_sk hdu_sl (e f e' f' : F) w' :
  run_manual w hdu_sk hdu_sl e f = Ok (e', f', w') →
  ∃ sk sl,
    hdu_data hdu_sk = Some sk ∧ hdu_data hdu_sl = Some sl
    ∧ w_fs w' = w_fs w
    ∧ run_manual_loop (w_stdin w) (w_store w) (w_log w) sk sl e f
      = Ok (e', f', (w_store w', w_stdin w', w_log w')).
Proof.
  unfold run_manual.
  destruct (hdu_data hdu_sk) as [sk|]; [|done].
  destruct (hdu_data hdu_sl) as [sl|]; [|done].
  cbn [or_raise mbind result_bind].
  destruct (run_manual_loop _ _ _ sk sl e f)
    as [[[e1 f1] [[st1 stdin1] log1]]|x] eqn:Hloop;
    cbn [mbind result_bind]; intros Heq; [|discriminate Heq].
  injection Heq as <- <- <-. exists sk, sl. by rewrite Hloop.
Qed.

(** X8: a call of [run_manual] that returns has read the input up to and
    including the first line that has exactly one token, and no further; it
    has prompted once for each line it read, the first prompt showing the
    parameters it was called with and the last one the parameters it
    returns; and it has written no file. *)
Theorem run_manual_reads_to_first_single w hdu_sk hdu_sl (e f e' f' : F) w' :
  run_manual w hdu_sk hdu_sl e f = Ok (e', f', w') →
  ∃ consumed final shown,
    w_stdin w = consumed ++ final :: w_stdin w'
    ∧ length (input_parse final) = 1
    ∧ Forall (λ l, length (input_parse l) ≠ 1) consumed
    ∧ w_log w' = w_log w ++ prompts ((e, f) :: shown)
    ∧ length shown = length consumed
    ∧ last ((e, f) :: shown) = Some (e', f')
    ∧ w_fs w' = w_fs w.
Proof.
  intros Hrun.
  destruct (run_manual_Ok _ _ _ _ _ _ _ _ Hrun) as (sk & sl & _ & _ & Hfs & Hloop).
  destruct (run_manual_loop_Ok _ _ _ _ _ _ _ _ _ _ _ _ Hloop)
    as (consumed & final & shown & Hin & Hfinal & Hall & Hlen & Hlog & Hlast & _).
  exists consumed, final, shown. repeat split; done.
Qed.

(** X9: the parameters [run_manual] returns are those of the last line with
    two tokens that it read, converted by [float]; when it read no such
    line they are the parameters it was called with.  The lines in question
    are those before the one-token line that ended the loop. *)
Theorem run_manual_returns_last_pair w hdu_sk hdu_sl (e f e' f' : F) w'
    consumed final :
  run_manual w hdu_sk hdu_sl e f = Ok (e', f', w') →
  w_stdin w = consumed ++ final :: w_stdin w' →
  (Forall (λ l, length (input_parse l) ≠ 2) consumed → e' = e ∧ f' = f)
  ∧ ∀ pre l2 post a b,
      consumed = pre ++ l2 :: post → input_parse l2 = [a; b] →
      Forall (λ l, length (input_parse l) ≠ 2) post →
      py_float a = Some e' ∧ py_float b = Some f'.
Proof.
  intros Hrun Hin.
  destruct (run_manual_Ok _ _ _ _ _ _ _ _ Hrun) as (sk & sl & _ & _ & _ & Hloop).
  destruct (run_manual_loop_Ok _ _ _ _ _ _ _ _ _ _ _ _ Hloop)
    as (consumed0 & final0 & shown & Hin0 & _ & _ & _ & _ & _ & Hsame & Hpair & _).
  assert (consumed = consumed0) as ->.
  { rewrite Hin in Hin0. apply app_inj_2 in Hin0 as [? _]; done. }
  split; [exact Hsame | exact Hpair].
Qed.

(** X10: a call of [run_manual] that returns has changed no array that
    existed before it other than the template it was given, and that one it
    has consumed once for every prompt, each time with the exponent shown:
    the preview of a later pass is computed from the template as the earlier
    passes left it. *)
Theorem run_manual_consumes_template w hdu_sk hdu_sl sl s (e f e' f' : F) w' :
  run_manual w hdu_sk hdu_sl e f = Ok (e', f', w') →
  hdu_data hdu_sl = Some sl → w_store w !! sl = Some s →
  ∃ shown,
    w_log w' = w_log w ++ prompts shown
    ∧ w_store w' !! sl = Some (with_data s (previewed (data s) shown))
    ∧ ∀ k, k ≠ sl → is_Some (w_store w !! k) →
        w_store w' !! k = w_store w !! k.
Proof.
  intros Hrun Hsl Hs.
  destruct (run_manual_Ok _ _ _ _ _ _ _ _ Hrun)
    as (sk & sl0 & _ & Hsl0 & _ & Hloop).
  rewrite Hsl in Hsl0. injection Hsl0 as <-.
  destruct (run_manual_loop_Ok _ _ _ _ _ _ _ _ _ _ _ _ Hloop)
    as (consumed & final & shown & _ & _ & _ & _ & Hlog & _ & _ & _
        & Hframe & Htpl).
  exists ((e, f) :: shown). split; [exact Hlog|].
  split; [by apply Htpl | exact Hframe].
Qed.

End RunManualProperties.

(** A run of the loop on three lines: one with three tokens, one with two
    numbers, one with a single token. *)
Lemma ex_run_manual_returns :
  ∃ e' f' w',
    run_manual (ex_world ∅ ["1 2 3"; "2 1"; "ok"]%string)
      {| hdu_data := Some 0; hdu_header := ex_header 100%Q |}
      {| hdu_data := Some 1; hdu_header := ex_header 100%Q |}
      (Qmake 6 5) (Qmake 2 5)
    = Ok (e', f', w')
    ∧ w_stdin w' = [].
Proof.
  destruct (run_manual _ _ _ (Qmake 6 5) (Qmake 2 5))
    as [[[e' f'] w']|x] eqn:E; [|vm_compute in E; discriminate E].
  exists e', f', w'. split; [done|].
  vm_compute in E. injection E as _ _ <-. reflexivity.
Qed.

Lemma run_manual_reads_to_first_single_witness :
  ∃ e' f' w',
    run_manual (ex_world ∅ ["1 2 3"; "2 1"; "ok"]%string)
      {| hdu_data := Some 0; hdu_header := ex_header 100%Q |}
      {| hdu_data := Some 1; hdu_header := ex_header 100%Q |}
      (Qmake 6 5) (Qmake 2 5)
    = Ok (e', f', w')
    ∧ ∃ consumed final shown,
        ["1 2 3"; "2 1"; "ok"]%string = consumed ++ final :: w_stdin w'
        ∧ length (input_parse final) = 1
        ∧ Forall (λ l, length (input_parse l) ≠ 1) consumed
        ∧ w_log w' = [] ++ prompts ((Qmake 6 5, Qmake 2 5) :: shown)
        ∧ length shown = length consumed
        ∧ last ((Qmake 6 5, Qmake 2 5) :: shown) = Some (e', f')
        ∧ w_fs w' = ∅.
Proof.
  destruct ex_run_manual_returns as (e' & f' & w' & Hrun & _).
  exists e', f', w'. split; [exact Hrun|].
  exact (run_manual_reads_to_first_single _ _ _ _ _ _ _ _ Hrun).
Defined.

Lemma run_manual_returns_last_pair_witness :
  ∃ e' f' w',
    run_manual (ex_world ∅ ["1 2 3"; "2 1"; "ok"]%string)
      {| hdu_data := Some 0; hdu_header := ex_header 100%Q |}
      {| hdu_data := Some 1; hdu_header := ex_header 100%Q |}
      (Qmake 6 5) (Qmake 2 5)
    = Ok (e', f', w')
    ∧ py_float "2" = Some e' ∧ py_float "1" = Some f'.
Proof.
  destruct ex_run_manual_returns as (e' & f' & w' & Hrun & Hnil).
  exists e', f', w'. split; [exact Hrun|].
  assert (Hin : w_stdin (ex_world ∅ ["1 2 3"; "2 1"; "ok"]%string)
                = ["1 2 3"; "2 1"]%string ++ "ok"%string :: w_stdin w')
    by (rewrite Hnil; reflexivity).
  destruct (run_manual_returns_last_pair _ _ _ _ _ _ _ _ _ _ Hrun Hin)
    as [_ Hpair].
  apply (Hpair ["1 2 3"%string] "2 1"%string [] "2"%string "1"%string);
    [reflexivity | vm_compute; reflexivity | constructor].
Defined.

Lemma run_manual_consumes_template_witness :
  ∃ e' f' w',
    run_manual (ex_world ∅ ["1 2 3"; "2 1"; "ok"]%string)
      {| hdu_data := Some 0; hdu_header := ex_header 100%Q |}
      {| hdu_data := Some 1; hdu_header := ex_header 100%Q |}
      (Qmake 6 5) (Qmake 2 5)
    = Ok (e', f', w')
    ∧ ∃ shown,
        w_log w' = [] ++ prompts shown
        ∧ w_store w' !! 1
          = Some (with_data ex_template (previewed (data ex_template) shown))
        ∧ ∀ k, k ≠ 1 → is_Some (ex_store !! k) →
            w_store w' !! k = ex_store !! k.
Proof.
  destruct ex_run_manual_returns as (e' & f' & w' & Hrun & _).
  exists e', f', w'. split; [exact Hrun|].
  assert (Hs : w_store (ex_world ∅ ["1 2 3"; "2 1"; "ok"]%string) !! 1
               = Some ex_template) by (vm_compute; reflexivity).
  exact (run_manual_consumes_template _ _ _ 1 ex_template _ _ _ _ _
           Hrun eq_refl Hs).
Defined.

(** ** The driver *)

Lemma foldl_invariant {A B : Type} (P : A → Prop) (g : A → B → A)
    (l : list B) : ∀ a,
  P a → (∀ a x, x ∈ l → P a → P (g a x)) → P (foldl g a l).
Proof.
  induction l as [|x l IH]; intros a Ha Hstep; [done|].
  cbn [foldl]. apply IH.
  - apply Hstep; [left | done].
  - intros a' x' Hx'. apply Hstep. by right.
Qed.

Lemma dict_set_elem k v d k' v' :
  (k', v') ∈ dict_set k v d → (k', v') ∈ d ∨ (k' = k ∧ v' = v).
Proof.
  induction d as [|[k0 v0] d IH]; cbn [dict_set].
  - intros Hin. apply list_elem_of_singleton in Hin. injection Hin as -> ->.
    by right.
  - destruct (decide (k0 = k)) as [->|Hne].
    + intros Hin. apply elem_of_cons in Hin as [Heq|Hin].
      * injection Heq as -> ->. by right.
      * left. by right.
    + intros Hin. apply elem_of_cons in Hin as [Heq|Hin].
      * left. rewrite Heq. left.
      * destruct (IH Hin) as [Hd|Hnew]; [left; by right | by right].
Qed.

Lemma dict_append_elem k x d k' v' :
  (k', v') ∈ dict_append k x d →
  (k', v') ∈ d ∨ (k' = k ∧ ∃ v0, (k, v0) ∈ d ∧ v' = v0 ++ [x]).
Proof.
  induction d as [|[k0 v0] d IH]; cbn [dict_append].
  - intros Hin. by apply elem_of_nil in Hin.
  - destruct (decide (k0 = k)) as [->|Hne].
    + intros Hin. apply elem_of_cons in Hin as [Heq|Hin].
      * injection Heq as -> ->. right. split; [done|]. exists v0.
        split; [left | done].
      * left. by right.
    + intros Hin. apply elem_of_cons in Hin as [Heq|Hin].
      * left. rewrite Heq. left.
      * destruct (IH Hin) as [Hd|(-> & v1 & Hv1 & ->)]; [left; by right|].
        right. split; [done|]. exists v1. split; [by right | done].
Qed.

Lemma obs_list_elem (d : list (string * list string))
    (filt obs : string) :
  obs ∈ map fst (filter (λ im, filt ∈ im.2) d) →
  ∃ v, (obs, v) ∈ d ∧ filt ∈ v.
Proof.
  intros Hin. apply list_elem_of_fmap in Hin as ([k v] & -> & Hin).
  apply list_elem_of_filter in Hin as [Hfilt Hin]. by exists v.
Qed.


Section ReaderLemmas.
Context {F : Type} `{!Scalar F}.
Implicit Types (st : gmap nat (ndarray F)) (w : world F).

Lemma load_hdus_spec : ∀ (hs : list (option (ndarray F) * header F)) st st' hdus,
  load_hdus st hs = (st', hdus) →
  (∀ k, is_Some (st !! k) → st' !! k = st !! k)
  ∧ contents st' hdus = Ok hs
  ∧ (∀ i j l, hdus !! i ≫= hdu_data = Some l →
              hdus !! j ≫= hdu_data = Some l → i = j)
  ∧ ∀ i l, hdus !! i ≫= hdu_data = Some l → l ∉ dom st.
Proof.
  induction hs as [|[[a|] hdr] hs IH]; intros st st' hdus Hload;
    cbn [load_hdus] in Hload.
  - injection Hload as <- <-. repeat split; try done.
  - unfold alloc in Hload. cbv zeta in Hload.
    set (l0 := fresh (dom st)) in *.
    destruct (load_hdus (<[l0 := a]> st) hs) as [st1 hdus1] eqn:Hrest.
    injection Hload as <- <-.
    destruct (IH _ _ _ Hrest) as (Hframe & Hcon & Hinj & Hfresh).
    assert (Hl : l0 ∉ dom st) by apply is_fresh.
    assert (Hne : ∀ k, is_Some (st !! k) → l0 ≠ k).
    { intros k Hk ->. apply Hl. by apply elem_of_dom. }
    assert (Hnew : ∀ j, hdus1 !! j ≫= hdu_data ≠ Some l0).
    { intros j Hj. apply (Hfresh j l0 Hj). rewrite dom_insert_L. set_solver. }
    repeat split.
    + intros k Hk. rewrite Hframe.
      * by rewrite (lookup_insert_ne _ _ _ _ (Hne k Hk)).
      * by rewrite (lookup_insert_ne _ _ _ _ (Hne k Hk)).
    + cbn [contents hdu_data hdu_header]. unfold read.
      rewrite Hframe by (rewrite lookup_insert_eq; eauto).
      rewrite lookup_insert_eq. cbn [or_raise mbind result_bind].
      by rewrite Hcon.
    + intros [|i] [|j] l Hi Hj; cbn in Hi, Hj.
      * done.
      * injection Hi as <-. by destruct (Hnew j).
      * injection Hj as <-. by destruct (Hnew i).
      * f_equal. by apply (Hinj i j l).
    + intros [|i] l Hi; cbn in Hi.
      * by injection Hi as <-.
      * intros Hin. apply (Hfresh i l Hi). rewrite dom_insert_L. set_solver.
  - destruct (load_hdus st hs) as [st1 hdus1] eqn:Hrest.
    injection Hload as <- <-.
    destruct (IH _ _ _ Hrest) as (Hframe & Hcon & Hinj & Hfresh).
    repeat split; try done.
    + cbn [contents hdu_data hdu_header mbind result_bind]. by rewrite Hcon.
    + intros [|i] [|j] l Hi Hj; cbn in Hi, Hj; try done.
      f_equal. by apply (Hinj i j l).
    + intros [|i] l Hi; cbn in Hi; [done|]. by apply (Hfresh i l).
Qed.

Lemma sample_reads_stacks : reads_stacks (F:=F) sample_fits_open.
Proof.
  split.
  - intros w path hs Hfile. unfold sample_fits_open. rewrite Hfile.
    destruct (load_hdus (w_store w) hs) as [st hdus]. eauto.
  - intros w path w' hdus. unfold sample_fits_open.
    destruct (w_fs w !! path) as [[t|hs]|] eqn:Hfile; [done| |done].
    destruct (load_hdus (w_store w) hs) as [st hdus1] eqn:Hload.
    intros [= <- <-]. cbn [w_store w_fs w_stdin w_log].
    destruct (load_hdus_spec _ _ _ _ Hload) as (Hframe & Hcon & Hinj & Hfresh).
    repeat split; try done. by exists hs.
Qed.

Lemma contents_length st (hdus : list (hdu F)) outs :
  contents st hdus = Ok outs → length outs = length hdus.
Proof.
  intros Hc. apply contents_headers in Hc.
  apply (f_equal length) in Hc. by rewrite !length_map in Hc.
Qed.





End ReaderLemmas.

Section DriverScan.
Context {F : Type} `{!Scalar F}.
Variable glob : gmap string (file F) → string → list string.
Variable fits_open : world F → string → result (world F * list (hdu F)).
Implicit Types (w : world F) (s : session F).
Implicit Types (d : list (string * list string)).

(** Every filter [fix_sl] has noted for a folder is one of the list, named
    by a sky image of that folder, which is one of the input folders. *)
Lemma scan_folders_noted (fs : gmap string (file F))
    (filter_list input_folders : list string) k v x :
  (k, v) ∈ (scan_folders glob fs filter_list input_folders).1 → x ∈ v →
  k ∈ input_folders ∧ x ∈ filter_list ∧ names_filter glob fs k x.
Proof.
  unfold scan_folders. revert k v x.
  apply (foldl_invariant
           (λ acc, ∀ k v x, (k, v) ∈ acc.1 → x ∈ v →
                            k ∈ input_folders ∧ x ∈ filter_list
                            ∧ names_filter glob fs k x)).
  - cbn [fst].
    assert (Hempty : ∀ k v, (k, v) ∈ foldl (λ d key, dict_set key [] d) []
                                       input_folders → v = []).
    { apply (foldl_invariant (λ d, ∀ k v, (k, v) ∈ d → v = [])).
      - intros k v Hin. by apply elem_of_nil in Hin.
      - intros d key _ Hd k v Hin.
        apply dict_set_elem in Hin as [Hin|[_ ->]]; [by apply (Hd k)|done]. }
    intros k v x Hin Hx. rewrite (Hempty k v Hin) in Hx.
    by apply elem_of_nil in Hx.
  - intros acc i Hi Hacc. cbn [fst]. unfold note_filters.
    apply (foldl_invariant
             (λ d, ∀ k v x, (k, v) ∈ d → x ∈ v →
                            k ∈ input_folders ∧ x ∈ filter_list
                            ∧ names_filter glob fs k x)); [exact Hacc|].
    intros d sk Hsk Hd k v x Hin Hx. cbv zeta in Hin.
    case_bool_decide as Hfilt; [|by apply (Hd k v)].
    apply dict_append_elem in Hin as [Hin|(-> & v0 & Hv0 & ->)];
      [by apply (Hd k v)|].
    apply elem_of_app in Hx as [Hx|Hx]; [by apply (Hd i v0)|].
    apply list_elem_of_singleton in Hx. subst x.
    split; [done|]. split; [done|]. by exists sk.
Qed.

(** An invariant of the session that every step over an observation noted
    for its filter keeps is kept by the loops over filters. *)
Lemma fix_filters_invariant (P : session F → Prop) fix_redo d :
  (∀ s n, P s → P (note s n)) →
  (∀ filt obs v s s',
     (obs, v) ∈ d → filt ∈ v → P s →
     fix_obs fits_open fix_redo filt obs s = Ok s' → P s') →
  ∀ filters s s',
    P s → fix_filters fits_open fix_redo d filters s = Ok s' → P s'.
Proof.
  intros Hnote Hobs.
  assert (Hlist : ∀ filt obs_list s s',
            (∀ obs, obs ∈ obs_list → ∃ v, (obs, v) ∈ d ∧ filt ∈ v) →
            P s → fix_obs_list fits_open fix_redo filt obs_list s = Ok s' →
            P s').
  { intros filt. induction obs_list as [|obs rest IH]; intros s s' Hall Hs.
    - by intros [= <-].
    - cbn [fix_obs_list].
      destruct (fix_obs fits_open fix_redo filt obs s) as [s1|x] eqn:Hstep;
        cbn [mbind result_bind]; [|done].
      destruct (Hall obs) as (v & Hv & Hfilt); [left|].
      apply IH; [intros o Ho; apply Hall; by right|].
      by apply (Hobs filt obs v s s1). }
  induction filters as [|filt rest IH]; intros s s' Hs.
  - by intros [= <-].
  - cbn [fix_filters]. unfold fix_filter at 1. cbv zeta.
    destruct (decide (length (map fst (filter (λ im, filt ∈ im.2) d)) = 0)).
    + cbn [mbind result_bind]. apply IH. by apply Hnote.
    + destruct (fix_obs_list _ _ _ _ s) as [s1|x] eqn:Hrun;
        cbn [mbind result_bind]; [|done].
      apply IH.
      apply (Hlist filt (map fst (filter (λ im, filt ∈ im.2) d)) s s1);
        [|done|done].
      intros obs. apply obs_list_elem.
Qed.

(** X11: when for every input folder and every filter of the list that a
    sky image of the folder names the scattered-light image is missing,
    [fix_sl] returns having only printed: it has opened no stack, asked for
    no input, and left every array and every file as it was. *)
Theorem fix_sl_nothing_to_do w input_folders output_prefix filter_list
    fix_redo :
  (∀ obs filt, obs ∈ input_folders → filt ∈ filter_list →
     names_filter glob (w_fs w) obs filt →
     w_fs w !! sl_image_of obs filt = None) →
  ∃ notices,
    fix_sl glob fits_open w input_folders output_prefix filter_list fix_redo
    = Ok {| s_world := w; s_notices := notices |}.
Proof.
  intros Hmiss. unfold fix_sl.
  destruct (scan_folders glob (w_fs w) filter_list input_folders)
    as [d ns] eqn:Hscan.
  assert (Hd : ∀ k v x, (k, v) ∈ d → x ∈ v →
             w_fs w !! sl_image_of k x = None).
  { intros k v x Hin Hx.
    destruct (scan_folders_noted (w_fs w) filter_list input_folders k v x)
      as (? & ? & ?); [by rewrite Hscan | done |]. by apply Hmiss. }
  assert (Hlist : ∀ filt obs_list ns0,
            (∀ obs, obs ∈ obs_list → ∃ v, (obs, v) ∈ d ∧ filt ∈ v) →
            ∃ ns1, fix_obs_list fits_open fix_redo filt obs_list
                     {| s_world := w; s_notices := ns0 |}
                   = Ok {| s_world := w; s_notices := ns1 |}).
  { intros filt. induction obs_list as [|obs rest IH]; intros ns0 Hall.
    - by exists ns0.
    - cbn [fix_obs_list]. unfold fix_obs at 1. cbv zeta.
      cbn [note s_world s_notices].
      destruct (Hall obs) as (v & Hv & Hfilt); [left|].
      rewrite decide_True by (by apply (Hd obs v)).
      cbn [mbind result_bind]. apply IH. intros o Ho. apply Hall. by right. }
  generalize ns. clear Hscan.
  induction filter_list as [|filt rest IH]; intros ns0.
  - by exists ns0.
  - cbn [fix_filters]. unfold fix_filter at 1. cbv zeta.
    destruct (decide (length (map fst (filter (λ im, filt ∈ im.2) d)) = 0)).
    + cbn [mbind result_bind note s_world s_notices]. apply IH.
      intros obs f Hobs Hf. apply Hmiss; [done | by right].
    + destruct (Hlist filt (map fst (filter (λ im, filt ∈ im.2) d)) ns0)
        as [ns1 ->]; [intros obs; apply obs_list_elem|].
      cbn [mbind result_bind]. apply IH.
      intros obs f Hobs Hf. apply Hmiss; [done | by right].
Qed.

End DriverScan.

Section FileCallsEdge.
Context {F : Type} `{!Scalar F}.
Variable fits_open : world F → string → result (world F * list (hdu F)).
Implicit Types (w : world F) (s : session F).

(** X14: for an observation whose counts image holds no extension beyond
    the first and that has no parameter file yet, [sl_manual] fits nothing
    and saves no table, and [sl_apply] then fails to find the parameter
    file: the step raises [FileNotFoundError]. *)
Theorem fix_obs_without_extensions fix_redo filt obs s cs ss :
  reads_stacks fits_open →
  w_fs (s_world s) !! sl_image_of obs filt = Some (StackFile ss) →
  w_fs (s_world s) !! sk_image_of obs filt = Some (StackFile cs) →
  length cs ≤ 1 →
  w_fs (s_world s) !! sl_file_of obs filt = None →
  fix_obs fits_open fix_redo filt obs s = Raise FileNotFoundError.
Proof.
  intros [Hcan Hopen] Hsl Hsk Hlen Hnone.
  unfold fix_obs. cbv zeta. cbn [note s_world s_notices].
  rewrite decide_False by (by rewrite Hsl).
  destruct (Hcan _ _ _ Hsk) as (wa & hdu_sk & Ho1).
  destruct (Hopen _ _ _ _ Ho1)
    as (Hfs1 & _ & _ & _ & (cs' & Hcs' & Hcon1) & _).
  rewrite Hsk in Hcs'. injection Hcs' as <-.
  destruct (Hcan wa (sl_image_of obs filt) ss) as (wb & hdu_sl & Ho2);
    [by rewrite Hfs1|].
  destruct (Hopen _ _ _ _ Ho2) as (Hfs2 & _).
  assert (Hexts : seq 1 (length hdu_sk - 1) = []).
  { rewrite <- (contents_length _ _ _ Hcon1).
    by replace (length cs - 1) with 0 by lia. }
  unfold sl_manual_files, load_table. rewrite Hnone.
  cbn [mbind result_bind]. rewrite Ho1. cbn [mbind result_bind].
  rewrite Ho2. cbn [mbind result_bind]. rewrite Hexts.
  cbn [sl_manual_loop mbind result_bind].
  unfold sl_apply_files. cbv zeta. cbn [note s_world s_notices].
  by rewrite Hfs2, Hfs1, Hnone.
Qed.

End FileCallsEdge.

Section FileCalls.
Context {F : Type} `{!Scalar F} `{!ScalarLaws F}.
Variable fits_open : world F → string → result (world F * list (hdu F)).
Implicit Types (st : gmap nat (ndarray F)) (w : world F) (s : session F).

Lemma sl_manual_loop_fs sl_file fix_redo hdu_sk hdu_sl : ∀ exts
    (sl_data : list (row F)) w sl_data' w',
  sl_manual_loop sl_file fix_redo hdu_sk hdu_sl exts sl_data w
  = Ok (sl_data', w') →
  ∀ p, p ≠ sl_file → w_fs w' !! p = w_fs w !! p.
Proof.
  induction exts as [|i rest IH]; intros sl_data w sl_data' w' Hloop p Hp.
  { by injection Hloop as <- <-. }
  cbn [sl_manual_loop] in Hloop.
  destruct (sl_manual_ext sl_file fix_redo hdu_sk hdu_sl i sl_data w)
    as [[sl_data1 w1]|x] eqn:Hstep; [|done].
  cbn [mbind result_bind] in Hloop.
  rewrite (IH _ _ _ _ Hloop p Hp).
  destruct (sl_manual_ext_Ok _ _ _ _ _ _ _ _ _ Hstep) as (h & Hh & Hcase).
  destruct Hcase as [(_ & _ & ->)|(hl & e & f & w0 & Hfit & _ & ->)]; [done|].
  unfold write_table. cbn [w_fs]. rewrite lookup_insert_ne by done.
  by rewrite (run_manual_fs _ _ _ _ _ _ _ _ Hfit).
Qed.

(** The steps of a call of [sl_manual] that returns. *)
Lemma sl_manual_files_Ok w sk_image sl_image sl_file fix_redo w1 :
  sl_manual_files fits_open w sk_image sl_image sl_file fix_redo = Ok w1 →
  ∃ sl_data wa hdu_sk wb hdu_sl sl_data',
    load_table w sl_file = Ok sl_data
    ∧ fits_open w sk_image = Ok (wa, hdu_sk)
    ∧ fits_open wa sl_image = Ok (wb, hdu_sl)
    ∧ sl_manual_loop sl_file fix_redo hdu_sk hdu_sl
        (seq 1 (length hdu_sk - 1)) sl_data wb = Ok (sl_data', w1).
Proof.
  unfold sl_manual_files.
  destruct (load_table w sl_file) as [sl_data|x] eqn:Hload;
    cbn [mbind result_bind]; [|done].
  destruct (fits_open w sk_image) as [[wa hdu_sk]|x] eqn:Ho1;
    cbn [mbind result_bind]; [|done].
  destruct (fits_open wa sl_image) as [[wb hdu_sl]|x] eqn:Ho2;
    cbn [mbind result_bind]; [|done].
  destruct (sl_manual_loop _ _ _ _ _ _ _) as [[sl_data' w']|x] eqn:Hloop;
    cbn [mbind result_bind]; [|done].
  intros [= <-].
  by exists sl_data, wa, hdu_sk, wb, hdu_sl, sl_data'.
Qed.

Lemma sl_manual_files_fs w sk_image sl_image sl_file fix_redo w1 :
  reads_stacks fits_open →
  sl_manual_files fits_open w sk_image sl_image sl_file fix_redo = Ok w1 →
  ∀ p, p ≠ sl_file → w_fs w1 !! p = w_fs w !! p.
Proof.
  intros [_ Hopen] Hrun p Hp.
  destruct (sl_manual_files_Ok _ _ _ _ _ _ Hrun)
    as (sl_data & wa & hdu_sk & wb & hdu_sl & sl_data' & _ & Ho1 & Ho2 & Hloop).
  rewrite (sl_manual_loop_fs _ _ _ _ _ _ _ _ _ Hloop p Hp).
  destruct (Hopen _ _ _ _ Ho1) as (Hfs1 & _).
  destruct (Hopen _ _ _ _ Ho2) as (Hfs2 & _).
  by rewrite Hfs2, Hfs1.
Qed.

(** The steps of a call of [sl_apply] that returns. *)
Lemma sl_apply_files_Ok s sk_image sl_image sl_file s2 :
  sl_apply_files fits_open s sk_image sl_image sl_file = Ok s2 →
  ∃ wa hdu_sk wb hdu_sl w2,
    fits_open (s_world s) sk_image = Ok (wa, hdu_sk)
    ∧ fits_open wa sl_image = Ok (wb, hdu_sl)
    ∧ (w_fs wb = w_fs (s_world s) →
       sl_apply wb sk_image hdu_sk hdu_sl sl_file = Ok w2)
    ∧ s2 = {| s_world := w2; s_notices := s_notices s ++ [Applying] |}
    ∧ ∃ st out,
        w2 = {| w_store := st;
                w_fs := <[py_replace "_corr.img" "_corr_sl.img" sk_image
                          := StackFile out]> (w_fs wb);
                w_stdin := w_stdin wb; w_log := w_log wb |}.
Proof.
  unfold sl_apply_files. cbv zeta. cbn [note s_world s_notices].
  set (name := py_replace "_corr.img" "_corr_sl.img" sk_image).
  destruct (w_fs (s_world s) !! sl_file) as [[sl_data|?]|] eqn:Htab;
    cbn [mbind result_bind]; [|done|done].
  destruct (fits_open (s_world s) sk_image) as [[wa hdu_sk]|x] eqn:Ho1;
    cbn [mbind result_bind]; [|done].
  destruct (fits_open wa sl_image) as [[wb hdu_sl]|x] eqn:Ho2;
    cbn [mbind result_bind]; [|done].
  destruct (hdu_sk !! 0) as [h0|] eqn:Hh0;
    cbn [or_raise mbind result_bind]; [|done].
  destruct (sl_apply_loop _ _ _ _ _ _) as [[st hdu_new]|x] eqn:Hloop;
    cbn [mbind result_bind]; [|done].
  destruct (contents st hdu_new) as [out|x] eqn:Hcon;
    cbn [mbind result_bind]; [|done].
  intros Heq. injection Heq as <-.
  eexists wa, hdu_sk, wb, hdu_sl, _. split; [done|]. split; [done|].
  split; [|split; [reflexivity|by eexists _, _]].
  intros Hfs. unfold sl_apply. rewrite Hfs, Htab.
  cbn [mbind result_bind]. rewrite Hh0. cbn [or_raise mbind result_bind].
  rewrite Hloop. cbn [mbind result_bind]. rewrite Hcon.
  cbn [mbind result_bind]. by subst name.
Qed.

Lemma sl_apply_files_fs s sk_image sl_image sl_file s2 :
  reads_stacks fits_open →
  sl_apply_files fits_open s sk_image sl_image sl_file = Ok s2 →
  ∀ p, p ≠ py_replace "_corr.img" "_corr_sl.img" sk_image →
       w_fs (s_world s2) !! p = w_fs (s_world s) !! p.
Proof.
  intros [_ Hopen] Hrun p Hp.
  destruct (sl_apply_files_Ok _ _ _ _ _ Hrun)
    as (wa & hdu_sk & wb & hdu_sl & w2 & Ho1 & Ho2 & _ & -> & st & out & ->).
  cbn [s_world w_fs]. rewrite lookup_insert_ne by done.
  destruct (Hopen _ _ _ _ Ho1) as (Hfs1 & _).
  destruct (Hopen _ _ _ _ Ho2) as (Hfs2 & _).
  by rewrite Hfs2, Hfs1.
Qed.

End FileCalls.

Section FirstSession.
Context {F : Type} `{!Scalar F} `{!ScalarLaws F} `{!Promotion F}.
Variable fits_open : world F → string → result (world F * list (hdu F)).
Implicit Types (st : gmap nat (ndarray F)) (w : world F) (s : session F).


End FirstSession.

Section DriverFiles.
Context {F : Type} `{!Scalar F} `{!ScalarLaws F}.
Variable glob : gmap string (file F) → string → list string.
Variable fits_open : world F → string → result (world F * list (hdu F)).
Implicit Types (w : world F) (s : session F).

(** X12: whatever [fix_sl] has changed on disk when it returns is a
    parameter file or a corrected stack of an input folder and a filter of
    the list that a sky image of that folder names: no other file is
    created, overwritten or removed. *)
Theorem fix_sl_files_touched w input_folders output_prefix filter_list
    fix_redo s :
  reads_stacks fits_open →
  fix_sl glob fits_open w input_folders output_prefix filter_list fix_redo
  = Ok s →
  ∀ p, w_fs (s_world s) !! p ≠ w_fs w !! p →
    ∃ obs filt,
      obs ∈ input_folders ∧ filt ∈ filter_list
      ∧ names_filter glob (w_fs w) obs filt
      ∧ (p = sl_file_of obs filt
         ∨ p = py_replace "_corr.img" "_corr_sl.img" (sk_image_of obs filt)).
Proof.
  intros Hopen. unfold fix_sl.
  destruct (scan_folders glob (w_fs w) filter_list input_folders)
    as [d ns] eqn:Hscan.
  assert (Hd : ∀ k v x, (k, v) ∈ d → x ∈ v →
             k ∈ input_folders ∧ x ∈ filter_list
             ∧ names_filter glob (w_fs w) k x).
  { intros k v x Hin Hx.
    apply (scan_folders_noted glob fits_open (w_fs w) filter_list
             input_folders k v x);
      [by rewrite Hscan | done]. }
  apply (fix_filters_invariant glob fits_open
           (λ s, ∀ p, w_fs (s_world s) !! p ≠ w_fs w !! p →
              ∃ obs filt, obs ∈ input_folders ∧ filt ∈ filter_list
                ∧ names_filter glob (w_fs w) obs filt
                ∧ (p = sl_file_of obs filt
                   ∨ p = py_replace "_corr.img" "_corr_sl.img"
                           (sk_image_of obs filt)))).
  - done.
  - intros filt obs v s0 s' Hin Hfilt Hs0. unfold fix_obs. cbv zeta.
    cbn [note s_world s_notices].
    destruct (decide (w_fs (s_world s0) !! sl_image_of obs filt = None));
      [by intros [= <-]|].
    destruct (sl_manual_files _ _ _ _ _ _) as [w1|x] eqn:Hman;
      cbn [mbind result_bind]; [|done].
    intros Happ p Hp.
    destruct (decide (p = py_replace "_corr.img" "_corr_sl.img"
                            (sk_image_of obs filt))) as [->|Hp1].
    { exists obs, filt. destruct (Hd obs v filt Hin Hfilt) as (? & ? & ?).
      repeat split; try done. by right. }
    destruct (decide (p = sl_file_of obs filt)) as [->|Hp2].
    { exists obs, filt. destruct (Hd obs v filt Hin Hfilt) as (? & ? & ?).
      repeat split; try done. by left. }
    apply Hs0.
    rewrite <- (sl_manual_files_fs _ _ _ _ _ _ _ Hopen Hman p Hp2).
    rewrite (sl_apply_files_fs _ _ _ _ _ _ Hopen Happ p Hp1) in Hp. done.
  - cbn [s_world]. by intros p Hp.
Qed.

End DriverFiles.

(** ** Runs of the driver on exact rationals *)


Lemma ex_fix_sl_returns :
  ∃ s, fix_sl ex_glob sample_fits_open (ex_disk ex_cs ["1.5 0.5"; "ok"]%string)
         ["obs"%string] "out_" ["w1"%string] false = Ok s.
Proof.
  destruct (fix_sl _ _ _ _ _ _ _) as [s|x] eqn:E; [by exists s|].
  vm_compute in E. discriminate E.
Qed.

Lemma fix_sl_nothing_to_do_witness :
  ∃ notices,
    fix_sl ex_glob sample_fits_open ex_bare_disk ["obs"%string] "out_"
      ["w1"; "uu"]%string false
    = Ok {| s_world := ex_bare_disk; s_notices := notices |}.
Proof.
  apply (fix_sl_nothing_to_do ex_glob sample_fits_open ex_bare_disk).
  intros obs filt Hobs Hfilt (sk & Hsk & Hname).
  apply list_elem_of_singleton in Hobs. subst obs.
  vm_compute in Hsk. apply list_elem_of_singleton in Hsk. subst sk.
  vm_compute in Hname. subst filt. vm_compute. reflexivity.
Defined.

Lemma fix_sl_files_touched_witness :
  ∃ s,
    fix_sl ex_glob sample_fits_open (ex_disk ex_cs ["1.5 0.5"; "ok"]%string)
      ["obs"%string] "out_" ["w1"%string] false = Ok s
    ∧ ∀ p, w_fs (s_world s) !! p
           ≠ w_fs (ex_disk ex_cs ["1.5 0.5"; "ok"]%string) !! p →
        ∃ obs filt,
          obs ∈ ["obs"%string] ∧ filt ∈ ["w1"%string]
          ∧ names_filter ex_glob
              (w_fs (ex_disk ex_cs ["1.5 0.5"; "ok"]%string)) obs filt
          ∧ (p = sl_file_of obs filt
             ∨ p = py_replace "_corr.img" "_corr_sl.img"
                     (sk_image_of obs filt)).
Proof.
  destruct ex_fix_sl_returns as [s Hrun]. exists s. split; [exact Hrun|].
  exact (fix_sl_files_touched ex_glob sample_fits_open _ _ _ _ _ _
           sample_reads_stacks Hrun).
Defined.

Lemma fix_obs_without_extensions_witness :
  fix_obs sample_fits_open false "w1" "obs"
    {| s_world := ex_disk [(None, ex_header 0%Q)] []; s_notices := [] |}
  = Raise FileNotFoundError.
Proof.
  apply (fix_obs_without_extensions sample_fits_open false "w1" "obs" _
           [(None, ex_header 0%Q)] ex_ss sample_reads_stacks);
    [vm_compute; reflexivity | vm_compute; reflexivity | cbn; lia
    | vm_compute; reflexivity].
Defined.

